(** * o1js bitwise XOR gadget and Keccak sponge: a shallow embedding

    The development follows two source files of the repository:

    - the recursive XOR gadget ([xor], [xorRec], [fitsInBits],
      [fieldBitsToFieldLE], [asProverNextVar]);
    - the Keccak gadget ([pad], [theta], [piRho], [chi], [iota], [absorb],
      [squeeze], [hash], [ethereum], the [State] helpers and the word/byte
      codec).

    Both are embedded as they run in the witness (prover) phase, where every
    variable carries a concrete field value and the callbacks given to
    [Provable.witness] and [Provable.asProver] are executed.  JavaScript
    numbers that the code uses as lengths and indices are integers and are
    modelled by [Z]; field elements are modelled by their canonical
    representative in [Z]. *)

From Stdlib Require Import String Ascii ZArith List Bool Lia Znumtheory.
From Stdlib Require Import Zcong.
Import ListNotations.

Local Open Scope string_scope.
Local Open Scope list_scope.
Local Open Scope Z_scope.

(** ** Exceptions and results *)

(** What a JavaScript call can throw in the embedded code. *)
Inductive error : Type :=
| Error (msg : string)        (* [throw Error(msg)], also a failed [assert] *)
| TypeError (what : string)   (* a property read or a method call on [undefined] *)
| RangeError (what : string). (* [Array(n)] with an invalid length *)

(** The outcome of running a call: it returns, it throws, or the recursion
    budget of the model is exhausted before it does either. *)
Inductive result (A : Type) : Type :=
| Ok (a : A)
| Throw (e : error)
| OutOfFuel.

Arguments Ok {A} a.
Arguments Throw {A} e.
Arguments OutOfFuel {A}.

Definition bind {A B : Type} (m : result A) (k : A -> result B) : result B :=
  match m with
  | Ok a => k a
  | Throw e => Throw e
  | OutOfFuel => OutOfFuel
  end.

Declare Scope result_scope.
Delimit Scope result_scope with result.
Notation "x <- m ;; k" := (bind m (fun x => k))
  (at level 61, m at next level, right associativity) : result_scope.
Notation "m ;; k" := (bind m (fun _ => k))
  (at level 61, right associativity) : result_scope.

(** [assert(stmt, message)] of the sources. *)
Definition assert (stmt : bool) (message : string) : result unit :=
  if stmt then Ok tt else Throw (Error message).

Definition returns {A : Type} (r : result A) : Prop := exists a, r = Ok a.
Definition throws {A : Type} (r : result A) : Prop := exists e, r = Throw e.

Fixpoint mapM {A B : Type} (f : A -> result B) (l : list A) : result (list B) :=
  match l with
  | [] => Ok []
  | x :: l' => (y <- f x ;; ys <- mapM f l' ;; Ok (y :: ys))%result
  end.

(** ** JavaScript arrays *)

(** An array slot holds a field element or [undefined]. *)
Inductive value : Type :=
| Undefined
| Fld (x : Z).

Definition array := list value.

(** [arr[i]]: [undefined] outside the array. *)
Definition js_get {A : Type} (undef : A) (arr : list A) (i : Z) : A :=
  if i <? 0 then undef else nth (Z.to_nat i) arr undef.

(** [arr[i] = v]: overwrites inside the array and extends it, leaving holes
    that read as [undefined], at or beyond its end.  A negative index sets a
    property and leaves the elements untouched. *)
Fixpoint set_nth {A : Type} (undef : A) (n : nat) (v : A) (arr : list A) : list A :=
  match n, arr with
  | O, [] => [v]
  | O, _ :: arr' => v :: arr'
  | S n', [] => undef :: set_nth undef n' v []
  | S n', x :: arr' => x :: set_nth undef n' v arr'
  end.

Definition js_set {A : Type} (undef : A) (arr : list A) (i : Z) (v : A) : list A :=
  if i <? 0 then arr else set_nth undef (Z.to_nat i) v arr.

(** The relative index of [Array.prototype.slice]. *)
Definition slice_index (len k : Z) : Z :=
  if k <? 0 then Z.max (len + k) 0 else Z.min k len.

(** [arr.slice(start, stop)]. *)
Definition js_slice {A : Type} (arr : list A) (start stop : Z) : list A :=
  let len := Z.of_nat (length arr) in
  let from := slice_index len start in
  let to := slice_index len stop in
  firstn (Z.to_nat (to - from)) (skipn (Z.to_nat from) arr).

(** [a % b] on integral numbers: [NaN] (here [None]) for [b = 0], otherwise
    the remainder that takes the sign of [a]. *)
Definition js_rem (a b : Z) : option Z :=
  if b =? 0 then None else Some (Z.rem a b).

(** ** Field elements *)

Module Field.

(** Modelled from the spec: the [Field] class ([../field.js]) is not among
    the sources.  The spec fixes a prime field whose elements decompose
    into [fieldBitWidth() = 255] bits, least significant first; the modulus
    taken here is the one of the native field of o1js (the Pallas base
    field), a 255-bit number. *)
Definition modulus : Z :=
  0x40000000000000000000000000000000224698fc094cf91b992d30ed00000001.

Definition sizeInBits : Z := 255.

(** [new Field(x)] *)
Definition from (x : Z) : Z := x mod modulus.

Definition add (x y : Z) : Z := (x + y) mod modulus.
Definition sub (x y : Z) : Z := (x - y) mod modulus.
Definition mul (x y : Z) : Z := (x * y) mod modulus.

(** [x.div(y)]: multiplication by the inverse of [y], which does not exist
    for zero. *)
Definition div (x y : Z) : result Z :=
  if y mod modulus =? 0 then Throw (Error "Field.div(): Division by zero")
  else Ok ((x * Z.invmod y modulus) mod modulus).

(** [x.toBits()]: the 255 bits of [x], least significant first. *)
Definition toBits (x : Z) : list bool :=
  map (fun i => Z.testbit x (Z.of_nat i)) (seq 0 (Z.to_nat sizeInBits)).

Fixpoint bitsToZ (bits : list bool) : Z :=
  match bits with
  | [] => 0
  | b :: bits' => Z.b2z b + 2 * bitsToZ bits'
  end.

(** [Field.fromBits(bits)]: the bits repacked, least significant first. *)
Definition fromBits (bits : list bool) : Z := from (bitsToZ bits).

(** [x.assertEquals(y)], on concrete values. *)
Definition assertEquals (x y : Z) : result unit :=
  if x =? y then Ok tt else Throw (Error "Field.assertEquals(): not equal").

End Field.

(** ** The recursive XOR gadget *)

Module Gates.

(** Modelled from the spec: the gate constructors ([../gates.js]) are not
    among the sources; each call appends one row to the constraint system.
    A row is recorded with the values of its operands. *)
Inductive gate : Type :=
| Xor (in1 in2 out : Z)
      (in1_0 in1_1 in1_2 in1_3 : Z)
      (in2_0 in2_1 in2_2 in2_3 : Z)
      (out_0 out_1 out_2 out_3 : Z)
| ZeroCheck (in1 in2 out : Z).

Definition is_xor (g : gate) : bool :=
  match g with Xor _ _ _ _ _ _ _ _ _ _ _ _ _ _ _ => true | ZeroCheck _ _ _ => false end.

Definition is_zeroCheck (g : gate) : bool :=
  match g with ZeroCheck _ _ _ => true | _ => false end.

End Gates.

(** A circuit computation reads and extends the list of rows emitted so far
    (newest last); it returns, throws, or runs out of fuel. *)
Definition Circuit (A : Type) : Type := list Gates.gate -> result (A * list Gates.gate).

Definition cret {A : Type} (a : A) : Circuit A := fun gs => Ok (a, gs).

Definition cbind {A B : Type} (m : Circuit A) (k : A -> Circuit B) : Circuit B :=
  fun gs =>
    match m gs with
    | Ok (a, gs') => k a gs'
    | Throw e => Throw e
    | OutOfFuel => OutOfFuel
    end.

(** A computation that emits nothing. *)
Definition lift {A : Type} (r : result A) : Circuit A :=
  fun gs => match r with Ok a => Ok (a, gs) | Throw e => Throw e | OutOfFuel => OutOfFuel end.

Definition emit (g : Gates.gate) : Circuit unit := fun gs => Ok (tt, gs ++ [g]).

Declare Scope circuit_scope.
Delimit Scope circuit_scope with circuit.
Notation "x <- m ;; k" := (cbind m (fun x => k))
  (at level 61, m at next level, right associativity) : circuit_scope.
Notation "m ;; k" := (cbind m (fun _ => k))
  (at level 61, right associativity) : circuit_scope.

Module Gadget.

Local Open Scope circuit_scope.

(** [fitsInBits(word, length)]: [word < 2 ** length], where [2 ** length]
    is a fraction below one for a negative [length]. *)
Definition fitsInBits (word length : Z) : result unit :=
  assert (if length <? 0 then word <? 1 else word <? 2 ^ length)
         "Word does not fit in bits".

Definition fieldBitsToFieldLE (f start stop : Z) : result Z :=
  if negb (stop =? -1) && (stop <=? start) then
    Throw (Error "stop offset must be greater than start offset")
  else
    let bits := Field.toBits f in
    if stop >? Z.of_nat (length bits) then
      Throw (Error "stop must be less than bit-length")
    else
      let stop := if stop =? -1 then Z.of_nat (length bits) else stop in
      Ok (Field.fromBits (js_slice bits start stop)).

(** The local function [ofBits] of [xorRec]. *)
Definition ofBits (f start stop : Z) : result Z :=
  if negb (stop =? -1) && (stop <=? start) then
    Throw (Error "Stop offste must be greater than start offset")
  else fieldBitsToFieldLE f start stop.

Definition asProverNextVar (current var0 var1 var2 var3 len_xor : Z) : result Z :=
  let twoPowLen := Field.from (2 ^ len_xor) in
  let twoPow2Len := Field.mul twoPowLen twoPowLen in
  let twoPow3Len := Field.mul twoPow2Len twoPowLen in
  let twoPow4Len := Field.mul twoPow3Len twoPowLen in
  Field.div
    (Field.sub
       (Field.sub
          (Field.sub (Field.sub current var0) (Field.mul var1 twoPowLen))
          (Field.mul var2 twoPow2Len))
       (Field.mul var3 twoPow3Len))
    twoPow4Len.

(** The value of the [k]-th nibble of width [len_xor] of [f], counted
    from the least significant one. *)
Definition nibble (f len_xor k : Z) : Z :=
  (f / 2 ^ (k * len_xor)) mod 2 ^ len_xor.

(** [xorRec]: the recursion of the source, on a budget of [fuel] calls. *)
Fixpoint xorRec (fuel : nat) (input1 input2 outputXor padLength len_xor : Z)
  : Circuit unit :=
  match fuel with
  | O => fun _ => OutOfFuel
  | S fuel' =>
    if padLength =? 0 then
      emit (Gates.ZeroCheck input1 input2 outputXor) ;;
      let zero := Field.from 0 in
      lift (Field.assertEquals zero input1) ;;
      lift (Field.assertEquals zero input2) ;;
      lift (Field.assertEquals zero outputXor)
    else
      let first := len_xor in
      let second := first + len_xor in
      let third := second + len_xor in
      let fourth := third + len_xor in
      in1_0 <- lift (ofBits input1 0 first) ;;
      in1_1 <- lift (ofBits input1 first second) ;;
      in1_2 <- lift (ofBits input1 second third) ;;
      in1_3 <- lift (ofBits input1 third fourth) ;;
      in2_0 <- lift (ofBits input2 0 first) ;;
      in2_1 <- lift (ofBits input2 first second) ;;
      in2_2 <- lift (ofBits input2 second third) ;;
      in2_3 <- lift (ofBits input2 third fourth) ;;
      out_0 <- lift (ofBits outputXor 0 first) ;;
      out_1 <- lift (ofBits outputXor first second) ;;
      out_2 <- lift (ofBits outputXor second third) ;;
      out_3 <- lift (ofBits outputXor third fourth) ;;
      emit (Gates.Xor input1 input2 outputXor
                      in1_0 in1_1 in1_2 in1_3
                      in2_0 in2_1 in2_2 in2_3
                      out_0 out_1 out_2 out_3) ;;
      next_in1 <- lift (asProverNextVar input1 in1_0 in1_1 in1_2 in1_3 len_xor) ;;
      next_in2 <- lift (asProverNextVar input2 in2_0 in2_1 in2_2 in2_3 len_xor) ;;
      next_out <- lift (asProverNextVar outputXor out_0 out_1 out_2 out_3 len_xor) ;;
      let next_length := padLength - 4 * len_xor in
      xorRec fuel' next_in1 next_in2 next_out next_length len_xor
  end.

(** The pad length computed by [xor]. *)
Definition padLength (length len_xor : Z) : Z :=
  if negb (Z.rem length (4 * len_xor) =? 0)
  then length + 4 * len_xor - Z.rem length (4 * len_xor)
  else len_xor.

(** The value witnessed for [outputXor]. *)
Definition outputXor (a b length : Z) : result Z :=
  (fitsInBits a length ;;
   fitsInBits b length ;;
   let input1Bits := Field.toBits a in
   let input2Bits := Field.toBits b in
   let outputBits :=
     map (fun '(b1, b2) => negb (Bool.eqb b1 b2)) (combine input1Bits input2Bits) in
   Ok (Field.fromBits outputBits))%result.

(** What [xor] computes before it builds the chain: the two assertions on
    its parameters, the [asProver] block (which repeats the [fitsInBits]
    checks and fills two local arrays that are not read again) and the
    witness for [outputXor]. *)
Definition xor_value (a b length len_xor : Z) : result Z :=
  (assert ((length >? 0) && (len_xor >? 0))
          "Length ${length} exceeds maximum of ${Field.sizeInBits()} bits." ;;
   assert (length <=? Field.sizeInBits)
          "Length exceeds maximum field size in bits." ;;
   fitsInBits a length ;;
   fitsInBits b length ;;
   outputXor a b length)%result.

(** [xor(a, b, length, len_xor)] *)
Definition xor (fuel : nat) (a b length len_xor : Z) : Circuit Z :=
  out <- lift (xor_value a b length len_xor) ;;
  xorRec fuel a b out (padLength length len_xor) len_xor ;;
  cret out.

(** The smallest multiple of [4 * len_xor] that is at least [length], as
    the specification words the pad length. *)
Definition padLength_spec (length len_xor : Z) : Z :=
  4 * len_xor * ((length + 4 * len_xor - 1) / (4 * len_xor)).

End Gadget.

(** ** The Keccak gadget *)

(** [Array(n).fill(v)]: a [RangeError] unless [n] is a valid length. *)
Definition js_fill {A : Type} (n : Z) (v : A) : result (list A) :=
  if n <? 0 then Throw (RangeError "Invalid array length")
  else Ok (repeat v (Z.to_nat n)).

(** A method call or an operand use of an array slot: a [TypeError] on
    [undefined]. *)
Definition as_field (v : value) : result Z :=
  match v with
  | Fld x => Ok x
  | Undefined => Throw (TypeError "Cannot read properties of undefined")
  end.

(** [m[i]] where the result is indexed again. *)
Definition row_get (m : list array) (i : Z) : result array :=
  if (0 <=? i) && (i <? Z.of_nat (length m)) then Ok (nth (Z.to_nat i) m [])
  else Throw (TypeError "Cannot read properties of undefined").

(** [m[i][j]] *)
Definition cell_get (m : list array) (i j : Z) : result value :=
  (row <- row_get m i ;; Ok (js_get Undefined row j))%result.

(** [m[i][j] = v], the row [m[i]] being updated in place. *)
Definition cell_set (m : list array) (i j : Z) (v : value) : result (list array) :=
  (row <- row_get m i ;;
   Ok (set_nth [] (Z.to_nat i) (js_set Undefined row j v) m))%result.

(** [for (let i = 0; i < n; i++) body], threading the mutated object. *)
Fixpoint forM {S : Type} (idx : list Z) (body : Z -> S -> result S) (s : S) : result S :=
  match idx with
  | [] => Ok s
  | i :: idx' => (s' <- body i s ;; forM idx' body s')%result
  end.

Definition range (n : nat) : list Z := map Z.of_nat (seq 0 n).

Inductive direction : Type := Left | Right.

(** The object [Gadgets] that the Keccak file imports from
    [./gadgets/gadgets.js], as far as the file uses it. *)
Record Gadgets : Type := {
  g_xor : Z -> Z -> Z -> result Z;               (* Gadgets.xor(a, b, length) *)
  g_and : Z -> Z -> Z -> result Z;               (* Gadgets.and(a, b, length) *)
  g_not : Z -> Z -> bool -> result Z;            (* Gadgets.not(a, length, checked) *)
  g_rotate : Z -> Z -> direction -> result Z     (* Gadgets.rotate(word, bits, direction) *)
}.

Module Keccak.

Local Open Scope result_scope.

Definition KECCAK_DIM : Z := 5.
Definition KECCAK_ELL : Z := 6.
Definition KECCAK_WORD : Z := 2 ^ KECCAK_ELL.
Definition BYTES_PER_WORD : Z := KECCAK_WORD / 8.
Definition KECCAK_STATE_LENGTH_WORDS : Z := KECCAK_DIM ^ 2.
Definition KECCAK_STATE_LENGTH : Z := KECCAK_STATE_LENGTH_WORDS * KECCAK_WORD.
Definition KECCAK_STATE_LENGTH_BYTES : Z := KECCAK_STATE_LENGTH / 8.

Definition ROT_TABLE : list (list Z) :=
  [ [0; 36; 3; 41; 18];
    [1; 44; 10; 45; 2];
    [62; 6; 43; 15; 61];
    [28; 55; 25; 21; 56];
    [27; 20; 39; 8; 14] ].

Definition ROUND_CONSTANTS : list Z :=
  [ 0x0000000000000001; 0x0000000000008082; 0x800000000000808a;
    0x8000000080008000; 0x000000000000808b; 0x0000000080000001;
    0x8000000080008081; 0x8000000000008009; 0x000000000000008a;
    0x0000000000000088; 0x0000000080008009; 0x000000008000000a;
    0x000000008000808b; 0x800000000000008b; 0x8000000000008089;
    0x8000000000008003; 0x8000000000008002; 0x8000000000000080;
    0x000000000000800a; 0x800000008000000a; 0x8000000080008081;
    0x8000000000008080; 0x0000000080000001; 0x8000000080008008 ].

Definition dim : list Z := range (Z.to_nat KECCAK_DIM).

(** *** Padding *)

Definition bytesToPad (rate length : Z) : option Z :=
  option_map (fun r => rate - r) (js_rem length rate).

Definition pad (message : array) (rate : Z) (nist : bool) : result array :=
  match bytesToPad rate (Z.of_nat (length message)) with
  | None => Throw (RangeError "Invalid array length") (* [Array(NaN)] *)
  | Some extraBytes =>
    let first := if nist then 0x06 else 0x01 in
    let last := 0x80 in
    pad0 <- js_fill extraBytes (Fld (Field.from 0)) ;;
    let pad1 := js_set Undefined pad0 0 (Fld (Field.from first)) in
    x <- as_field (js_get Undefined pad1 (extraBytes - 1)) ;;
    let pad2 := js_set Undefined pad1 (extraBytes - 1) (Fld (Field.add x last)) in
    Ok (message ++ pad2)
  end.

(** *** The state *)

Module State.

Definition zeros : list array :=
  repeat (repeat (Fld (Field.from 0)) (Z.to_nat KECCAK_DIM)) (Z.to_nat KECCAK_DIM).

Definition toWords (state : list array) : result array :=
  forM dim (fun j words =>
    forM dim (fun i words =>
      x <- cell_get state i j ;;
      Ok (js_set Undefined words (KECCAK_DIM * j + i) x)) words)
    (repeat Undefined (Z.to_nat KECCAK_STATE_LENGTH_WORDS)).

Definition fromWords (words : array) : result (list array) :=
  forM dim (fun j state =>
    forM dim (fun i state =>
      cell_set state i j (js_get Undefined words (KECCAK_DIM * j + i))) state)
    zeros.

Section WithGadgets.
Variable G : Gadgets.

Definition xor (a b : list array) : result (list array) :=
  assert ((Z.of_nat (length a) =? KECCAK_DIM)
          && (Z.of_nat (length (nth 0 a [])) =? KECCAK_DIM))
         "invalid `a` dimensions (should be ${KECCAK_DIM})" ;;
  assert ((Z.of_nat (length b) =? KECCAK_DIM)
          && (Z.of_nat (length (nth 0 b [])) =? KECCAK_DIM))
         "invalid `b` dimensions (should be ${KECCAK_DIM})" ;;
  mapM (fun '(i, row) =>
          mapM (fun '(j, value) =>
                  y <- cell_get b i j ;;
                  x <- as_field value ;;
                  y <- as_field y ;;
                  out <- g_xor G x y 64 ;;
                  Ok (Fld out))
               (combine (range (length row)) row))
       (combine (range (length a)) a).
End WithGadgets.

End State.

(** *** The word/byte codec *)

(** A byte: a field element below 256. *)
Definition is_byte (x : Z) : Prop := 0 <= x < 256.

(** [array.reduce(f, init)] with the index of the element. *)
Fixpoint reduce_idx {A B : Type} (f : B -> A -> Z -> result B) (l : list A)
         (idx : Z) (acc : B) : result B :=
  match l with
  | [] => Ok acc
  | x :: l' => acc' <- f acc x idx ;; reduce_idx f l' (idx + 1) acc'
  end.

Definition bytesToWord (wordBytes : array) : result Z :=
  reduce_idx (fun acc value idx =>
                let shift := Z.shiftl 1 (8 * idx) in
                v <- as_field value ;;
                Ok (Field.add acc (Field.mul v shift)))
             wordBytes 0 (Field.from 0).

(** Modelled from the spec: [rangeCheck8] ([./gadgets/range-check.js]) is
    not among the sources; a byte is range-checked to be below 256. *)
Definition rangeCheck8 (x : Z) : result unit :=
  assert (x <? 256) "rangeCheck8: expected field to fit in 8 bits".

(** [exists] ([./gadgets/common.js], not among the sources) turns the
    computed integers into witnessed field elements. *)
Definition wordToBytes (word : value) : result array :=
  w <- as_field word ;;
  let bytes :=
    map (fun k => Field.from (Z.land (Z.shiftr w (8 * k)) 0xff))
        (range (Z.to_nat BYTES_PER_WORD)) in
  _ <- mapM rangeCheck8 bytes ;;
  let bytes := map Fld bytes in
  sum <- bytesToWord bytes ;;
  Field.assertEquals sum w ;;
  Ok bytes.

Definition chunk {T : Type} (array : list T) (size : Z) : result (list (list T)) :=
  let len := Z.of_nat (length array) in
  assert (match js_rem len size with Some 0 => true | _ => false end)
         "invalid input length" ;;
  Ok (map (fun i => js_slice array (size * i) (size * (i + 1)))
          (range (Z.to_nat (len / size)))).

Definition bytesToWords (bytes : array) : result array :=
  chunks <- chunk bytes BYTES_PER_WORD ;;
  mapM (fun c => w <- bytesToWord c ;; Ok (Fld w)) chunks.

Definition wordsToBytes (words : array) : result array :=
  bs <- mapM wordToBytes words ;;
  Ok (concat bs).

(** *** Squeezing *)

(** [Math.floor(length / rate)]: [NaN] or an infinity (here [None]) for a
    zero [rate]. *)
Definition floor_div (length rate : Z) : option Z :=
  if rate =? 0 then None else Some (length / rate).

(** The number of squeezes that [squeeze] computes. *)
Definition squeezes (length rate : Z) : option Z :=
  option_map (fun q => q + 1) (floor_div length rate).

Definition squeeze (state : list array) (length rate : Z) : result array :=
  assert (match squeezes length rate with Some 1 => true | _ => false end)
         "squeezes should be 1" ;;
  words <- State.toWords state ;;
  let hashed := js_slice words 0 length in
  Ok hashed.

(** As the specification words the single-squeeze case: the requested
    output of [length] words fits within one rate, so that one squeeze
    round, which yields [rate] words, is enough for it. *)
Definition fits_within_one_rate (length rate : Z) : bool := length <=? rate.

(** A matrix of five rows of five slots each. *)
Definition is_5x5 (m : list array) : bool :=
  (List.length m =? 5)%nat && forallb (fun row => (List.length row =? 5)%nat) m.

Section WithGadgets.
Variable G : Gadgets.

(** *** The round function *)

(** [row.reduce(f)] without an initial value. *)
Definition reduce1 (f : Z -> Z -> result Z) (row : array) : result value :=
  match row with
  | [] => Throw (TypeError "Reduce of empty array with no initial value")
  | [x] => Ok x
  | x :: rest =>
    acc <- as_field x ;;
    r <- reduce_idx (fun acc value _ => v <- as_field value ;; f acc v) rest 1 acc ;;
    Ok (Fld r)
  end.

Definition theta (state : list array) : result (list array) :=
  let stateA := state in
  stateC <- mapM (reduce1 (fun acc value => g_xor G acc value KECCAK_WORD)) stateA ;;
  stateD <- mapM (fun x =>
                    c1 <- as_field (js_get Undefined stateC ((x + 1) mod KECCAK_DIM)) ;;
                    r <- g_rotate G c1 1 Left ;;
                    c0 <- as_field (js_get Undefined stateC ((x + KECCAK_DIM - 1) mod KECCAK_DIM)) ;;
                    d <- g_xor G c0 r KECCAK_WORD ;;
                    Ok (Fld d))
                 dim ;;
  mapM (fun '(index, row) =>
          mapM (fun elem =>
                  e <- as_field elem ;;
                  d <- as_field (js_get Undefined stateD index) ;;
                  out <- g_xor G e d KECCAK_WORD ;;
                  Ok (Fld out))
               row)
       (combine (range (length stateA)) stateA).

Definition piRho (state : list array) : result (list array) :=
  let stateE := state in
  forM dim (fun i stateB =>
    forM dim (fun j stateB =>
      e <- cell_get stateE i j ;;
      e <- as_field e ;;
      r <- g_rotate G e (js_get 0 (js_get [] ROT_TABLE i) j) Left ;;
      cell_set stateB j ((2 * i + 3 * j) mod KECCAK_DIM) (Fld r)) stateB)
    State.zeros.

Definition chi (state : list array) : result (list array) :=
  let stateB := state in
  forM dim (fun i stateF =>
    forM dim (fun j stateF =>
      b0 <- cell_get stateB i j ;;
      b1 <- cell_get stateB ((i + 1) mod KECCAK_DIM) j ;;
      b1 <- as_field b1 ;;
      n <- g_not G b1 KECCAK_WORD false ;;
      b2 <- cell_get stateB ((i + 2) mod KECCAK_DIM) j ;;
      b2 <- as_field b2 ;;
      a <- g_and G n b2 KECCAK_WORD ;;
      b0 <- as_field b0 ;;
      out <- g_xor G b0 a KECCAK_WORD ;;
      cell_set stateF i j (Fld out)) stateF)
    State.zeros.

Definition iota (state : list array) (rc : Z) : result (list array) :=
  let stateG := state in
  x <- cell_get stateG 0 0 ;;
  x <- as_field x ;;
  out <- g_xor G x (Field.from rc) KECCAK_WORD ;;
  cell_set stateG 0 0 (Fld out).

Definition round (state : list array) (rc : Z) : result (list array) :=
  let stateA := state in
  stateE <- theta stateA ;;
  stateB <- piRho stateE ;;
  stateF <- chi stateB ;;
  stateD <- iota stateF rc ;;
  Ok stateD.

Definition permutation (state : list array) (rc : list Z) : result (list array) :=
  reduce_idx (fun acc value _ => round acc value) rc 0 state.

(** *** The sponge *)

(** The block loop of [absorb]: [for (idx = 0; idx < length; idx += rate)]
    on a budget of [fuel] tests of the loop condition. *)
Fixpoint absorb_loop (fuel : nat) (paddedMessage zeros : array) (rate : Z)
         (rc : list Z) (idx : Z) (state : list array) : result (list array) :=
  match fuel with
  | O => OutOfFuel
  | S fuel' =>
    if idx <? Z.of_nat (length paddedMessage) then
      let block := js_slice paddedMessage idx (idx + rate) in
      let paddedBlock := block ++ zeros in
      blockState <- State.fromWords paddedBlock ;;
      stateXor <- State.xor G state blockState ;;
      state' <- permutation stateXor rc ;;
      absorb_loop fuel' paddedMessage zeros rate rc (idx + rate) state'
    else Ok state
  end.

(** The loop is given one test more than the message has words, which a
    positive [rate] never exhausts. *)
Definition absorb (paddedMessage : array) (capacity rate : Z) (rc : list Z)
  : result (list array) :=
  assert (rate + capacity =? KECCAK_STATE_LENGTH_WORDS)
         "invalid rate or capacity (rate + capacity should be ${KECCAK_STATE_LENGTH_WORDS})" ;;
  assert (match js_rem (Z.of_nat (length paddedMessage)) rate with
          | Some 0 => true | _ => false end)
         "invalid padded message length (should be multiple of rate)" ;;
  let state := State.zeros in
  zeros <- js_fill capacity (Fld (Field.from 0)) ;;
  absorb_loop (S (length paddedMessage)) paddedMessage zeros rate rc 0 state.

Definition sponge (paddedMessage : array) (length capacity rate : Z) : result array :=
  assert (match js_rem (Z.of_nat (List.length paddedMessage)) rate with
          | Some 0 => true | _ => false end)
         "Invalid padded message length" ;;
  state <- absorb paddedMessage capacity rate ROUND_CONSTANTS ;;
  hashed <- squeeze state length rate ;;
  Ok hashed.

(** [hash]: [capacity] and [length] are divided by [BYTES_PER_WORD] only
    after they are asserted to be multiples of it. *)
Definition hash (message : array) (length capacity : Z) (nistVersion : bool)
  : result array :=
  assert (capacity >? 0) "capacity must be positive" ;;
  assert (capacity <? KECCAK_STATE_LENGTH_BYTES)
         "capacity must be less than ${KECCAK_STATE_LENGTH_BYTES}" ;;
  assert (length >? 0) "length must be positive" ;;
  assert (Z.rem capacity BYTES_PER_WORD =? 0) "length must be a multiple of 8" ;;
  let capacity := capacity / BYTES_PER_WORD in
  assert (Z.rem length BYTES_PER_WORD =? 0) "length must be a multiple of 8" ;;
  let length := length / BYTES_PER_WORD in
  let rate := KECCAK_STATE_LENGTH_WORDS - capacity in
  paddedBytes <- pad message (rate * BYTES_PER_WORD) nistVersion ;;
  padded <- bytesToWords paddedBytes ;;
  hash <- sponge padded length capacity rate ;;
  hashBytes <- wordsToBytes hash ;;
  Ok hashBytes.

(** The output lengths that the signatures of [nistSha3] and [preNist]
    admit. *)
Inductive digest_length : Type := L224 | L256 | L384 | L512.

Definition bits_of (len : digest_length) : Z :=
  match len with L224 => 224 | L256 => 256 | L384 => 384 | L512 => 512 end.

Definition nistSha3 (len : digest_length) (message : array) : result array :=
  hash message (bits_of len / 8) (bits_of len / 4) true.

Definition preNist (len : digest_length) (message : array) : result array :=
  hash message (bits_of len / 8) (bits_of len / 4) false.

Definition ethereum (message : array) : result array :=
  preNist L256 message.

End WithGadgets.

End Keccak.

(** ** Implementations of the gadget interface *)

Module GadgetsImpl.

(** Modelled from the spec: [Gadgets.and] is not among the sources; the
    bitwise AND of two words. *)
Definition and (a b length : Z) : result Z := Ok (Z.land a b).

(** Modelled from the spec: [Gadgets.not] is not among the sources; the
    complement within [length] bits, whose operand is range-checked only in
    the checked variant. *)
Definition not (a length : Z) (checked : bool) : result Z :=
  (assert (negb checked || (a <? 2 ^ length)) "not: input does not fit" ;;
   Ok (Field.sub (Z.ones length) a))%result.

(** Modelled from the spec: [Gadgets.rotate] is not among the sources; the
    rotation of a 64-bit word by [bits] positions. *)
Definition rotate (word bits : Z) (dir : direction) : result Z :=
  let bits := match dir with Left => bits | Right => 64 - bits end in
  Ok ((word * 2 ^ bits) mod 2 ^ 64 + word / 2 ^ (64 - bits)).

(** The gadgets with [Gadgets.xor] returning what [xor] returns once its
    chain is built (default nibble width 4). *)
Definition contract : Gadgets :=
  {| g_xor := fun a b length => Gadget.xor_value a b length 4;
     g_and := and;
     g_not := not;
     g_rotate := rotate |}.

(** The gadgets with [Gadgets.xor] running [xor] of the XOR gadget source,
    chain included, on a budget of [fuel] calls of [xorRec]; the rows it
    emits are dropped. *)
Definition source (fuel : nat) : Gadgets :=
  {| g_xor := fun a b length =>
       match Gadget.xor fuel a b length 4 [] with
       | Ok (out, _) => Ok out
       | Throw e => Throw e
       | OutOfFuel => OutOfFuel
       end;
     g_and := and;
     g_not := not;
     g_rotate := rotate |}.

End GadgetsImpl.

(** ** Hexadecimal encoding of byte sequences *)





(** ** Words, bytes and well-formed states *)

Module Lanes.

(** A word (lane): a field element below 2^64. *)
Definition is_word (x : Z) : Prop := 0 <= x < 2 ^ 64.

(** An array slot that holds a word, and one that holds a byte. *)
Definition word_slot (v : value) : Prop := exists x, v = Fld x /\ is_word x.
Definition byte_slot (v : value) : Prop := exists x, v = Fld x /\ Keccak.is_byte x.

(** A row of five words. *)
Definition word_row (row : list value) : Prop :=
  List.length row = 5%nat /\ Forall word_slot row.

(** A state as [type State] means it: five rows of five words. *)
Definition lanes (state : list array) : Prop :=
  List.length state = 5%nat
  /\ Forall (fun row => List.length row = 5%nat /\ Forall word_slot row) state.

(** What the Keccak file relies on from the gadgets it imports: on words,
    with the width 64 it passes, each of them returns a word. *)
Record conforming (G : Gadgets) : Prop := {
  xor_word : forall a b, is_word a -> is_word b ->
                         exists c, g_xor G a b 64 = Ok c /\ is_word c;
  and_word : forall a b, is_word a -> is_word b ->
                         exists c, g_and G a b 64 = Ok c /\ is_word c;
  not_word : forall a, is_word a ->
                       exists c, g_not G a 64 false = Ok c /\ is_word c;
  rotate_word : forall a bits, is_word a -> 0 <= bits < 64 ->
                               exists c, g_rotate G a bits Left = Ok c /\ is_word c
}.

End Lanes.

(** * Properties *)

(** ** The field *)

Lemma modulus_bounds : 2 ^ 254 < Field.modulus < 2 ^ 255.
Proof. unfold Field.modulus. split; reflexivity. Qed.

Lemma pow2_lt_modulus (n : Z) : 0 <= n <= 254 -> 0 < 2 ^ n < Field.modulus.
Proof.
  intros Hn. pose proof modulus_bounds as Hm.
  assert (2 ^ n <= 2 ^ 254) by (apply Z.pow_le_mono_r; lia).
  assert (0 < 2 ^ n) by (apply Z.pow_pos_nonneg; lia).
  lia.
Qed.

Lemma from_small (x : Z) : 0 <= x < Field.modulus -> Field.from x = x.
Proof. intros; unfold Field.from; apply Z.mod_small; assumption. Qed.

Lemma from_range (x : Z) : 0 <= Field.from x < Field.modulus.
Proof.
  unfold Field.from. apply Z.mod_pos_bound.
  pose proof modulus_bounds; assert (0 < 2 ^ 254) by reflexivity; lia.
Qed.

(** The powers of the nibble base that [asProverNextVar] forms by repeated
    field multiplication are the integer powers, as long as four nibbles fit
    the bit width of the field. *)
Lemma twoPow_chain (w : Z) :
  0 < w -> 4 * w <= Field.sizeInBits ->
  let t := Field.from (2 ^ w) in
  t = 2 ^ w /\
  Field.mul t t = 2 ^ (2 * w) /\
  Field.mul (Field.mul t t) t = 2 ^ (3 * w) /\
  Field.mul (Field.mul (Field.mul t t) t) t = 2 ^ (4 * w).
Proof.
  intros Hw H4 t. unfold Field.sizeInBits in H4.
  assert (E1 : t = 2 ^ w) by (apply from_small; pose proof (pow2_lt_modulus w); lia).
  assert (E2 : Field.mul t t = 2 ^ (2 * w)).
  { unfold Field.mul. rewrite E1, <- Z.pow_add_r by lia.
    replace (w + w) with (2 * w) by lia.
    apply Z.mod_small. pose proof (pow2_lt_modulus (2 * w)); lia. }
  assert (E3 : Field.mul (Field.mul t t) t = 2 ^ (3 * w)).
  { unfold Field.mul at 1. rewrite E2, E1, <- Z.pow_add_r by lia.
    replace (2 * w + w) with (3 * w) by lia.
    apply Z.mod_small. pose proof (pow2_lt_modulus (3 * w)); lia. }
  repeat split; try assumption.
  unfold Field.mul at 1. rewrite E3, E1, <- Z.pow_add_r by lia.
  replace (3 * w + w) with (4 * w) by lia.
  apply Z.mod_small. pose proof (pow2_lt_modulus (4 * w)); lia.
Qed.

(** ** The pad length *)

Lemma padLength_unaligned (length len_xor : Z) :
  Z.rem length (4 * len_xor) <> 0 ->
  Gadget.padLength length len_xor
  = length + 4 * len_xor - Z.rem length (4 * len_xor).
Proof.
  intros H. unfold Gadget.padLength.
  destruct (Z.eqb_spec (Z.rem length (4 * len_xor)) 0); [contradiction | reflexivity].
Qed.

Lemma padLength_aligned (length len_xor : Z) :
  Z.rem length (4 * len_xor) = 0 ->
  Gadget.padLength length len_xor = len_xor.
Proof. intros H. unfold Gadget.padLength. rewrite H. reflexivity. Qed.

(** Off the multiples of [4 * len_xor] the code computes the pad length of
    the specification. *)
Lemma padLength_unaligned_spec (length len_xor : Z) :
  0 < len_xor -> 0 < length -> Z.rem length (4 * len_xor) <> 0 ->
  Gadget.padLength length len_xor = Gadget.padLength_spec length len_xor.
Proof.
  intros Hw Hl Hr. rewrite padLength_unaligned by assumption.
  unfold Gadget.padLength_spec.
  rewrite Z.rem_mod_nonneg in * by lia.
  set (m := 4 * len_xor) in *.
  assert (Hm : 0 < m) by (subst m; lia).
  pose proof (Z.div_mod length m ltac:(lia)) as Hdm.
  pose proof (Z.mod_pos_bound length m Hm) as Hb.
  assert (Hq : (length + m - 1) / m = length / m + 1).
  { symmetry. apply Z.div_unique with (r := length mod m - 1); lia. }
  rewrite Hq. lia.
Qed.

(** [padLength_spec] is the smallest multiple of [4 * len_xor] that is at
    least [length]. *)
Lemma padLength_spec_least (length len_xor : Z) :
  0 < len_xor ->
  (4 * len_xor | Gadget.padLength_spec length len_xor) /\
  length <= Gadget.padLength_spec length len_xor /\
  forall k, length <= 4 * len_xor * k -> Gadget.padLength_spec length len_xor <= 4 * len_xor * k.
Proof.
  intros Hw. unfold Gadget.padLength_spec.
  set (m := 4 * len_xor). assert (Hm : 0 < m) by (subst m; lia).
  pose proof (Z.div_mod (length + m - 1) m ltac:(lia)) as Hdm.
  pose proof (Z.mod_pos_bound (length + m - 1) m Hm) as Hb.
  split; [exists ((length + m - 1) / m); lia |].
  split; [lia |].
  intros k Hk.
  assert ((length + m - 1) / m <= k); [| nia].
  apply Z.lt_succ_r. apply Z.div_lt_upper_bound; lia.
Qed.

(** ** Bits of a field element *)

Lemma firstn_seq_le (n start len : nat) :
  (n <= len)%nat -> firstn n (seq start len) = seq start n.
Proof.
  revert start len. induction n as [| n IH]; intros start len Hn; [reflexivity |].
  destruct len as [| len]; [lia |]. simpl. f_equal. apply IH. lia.
Qed.

Lemma toBits_length (f : Z) : length (Field.toBits f) = 255%nat.
Proof. unfold Field.toBits. rewrite length_map, length_seq. reflexivity. Qed.

(** A slice of the bit decomposition holds the bits from [start] up to
    [stop]. *)
Lemma toBits_slice (f start stop : Z) :
  0 <= start <= stop -> stop <= 255 ->
  js_slice (Field.toBits f) start stop
  = map (fun i => Z.testbit f (Z.of_nat i))
        (seq (Z.to_nat start) (Z.to_nat (stop - start))).
Proof.
  intros Hs Ht. unfold js_slice. rewrite toBits_length.
  unfold slice_index.
  destruct (Z.ltb_spec start 0); [lia |].
  destruct (Z.ltb_spec stop 0); [lia |].
  rewrite !Z.min_l by lia.
  unfold Field.toBits, Field.sizeInBits.
  rewrite skipn_map, firstn_map, skipn_seq, firstn_seq_le by lia.
  reflexivity.
Qed.

Lemma bitsToZ_testbits (f : Z) (n start : nat) :
  Field.bitsToZ (map (fun i => Z.testbit f (Z.of_nat i)) (seq start n))
  = (f / 2 ^ Z.of_nat start) mod 2 ^ Z.of_nat n.
Proof.
  revert start. induction n as [| n IH]; intros start.
  - simpl. rewrite Z.mod_1_r. reflexivity.
  - cbn [seq map Field.bitsToZ]. rewrite IH.
    rewrite Z.testbit_spec' by lia.
    replace (Z.of_nat (S start)) with (Z.of_nat start + 1) by lia.
    replace (Z.of_nat (S n)) with (1 + Z.of_nat n) by lia.
    rewrite !Z.pow_add_r, Z.pow_1_r by lia.
    rewrite <- Z.div_div by (try apply Z.pow_pos_nonneg; lia).
    rewrite Z.rem_mul_r by (try apply Z.pow_pos_nonneg; lia).
    reflexivity.
Qed.

(** The nibble that [ofBits] witnesses. *)
Lemma ofBits_returns (f start stop : Z) :
  0 <= start < stop -> stop <= 255 -> stop - start <= 254 ->
  Gadget.ofBits f start stop = Ok ((f / 2 ^ start) mod 2 ^ (stop - start)).
Proof.
  intros Hs Ht Hw. unfold Gadget.ofBits, Gadget.fieldBitsToFieldLE.
  rewrite toBits_length.
  destruct (Z.eqb_spec stop (-1)); [lia |].
  destruct (Z.leb_spec stop start); [lia |]. cbn [negb andb].
  destruct (Z.gtb_spec stop (Z.of_nat 255)); [lia |].
  rewrite toBits_slice by lia.
  unfold Field.fromBits. rewrite bitsToZ_testbits, !Z2Nat.id by lia.
  f_equal. apply from_small.
  assert (0 < 2 ^ (stop - start)) by (apply Z.pow_pos_nonneg; lia).
  pose proof (Z.mod_pos_bound (f / 2 ^ start) (2 ^ (stop - start)) ltac:(lia)).
  assert (2 ^ (stop - start) <= 2 ^ 254) by (apply Z.pow_le_mono_r; lia).
  pose proof modulus_bounds. lia.
Qed.

(** ** The remainder for the next round *)

Lemma coprime_pow2_modulus (n : Z) : 0 <= n -> Z.coprime (2 ^ n) Field.modulus.
Proof. intros Hn. apply Z.coprime_pow_l; [assumption | reflexivity]. Qed.

Lemma div_returns (x y : Z) :
  y mod Field.modulus <> 0 ->
  Field.div x y = Ok ((x * Z.invmod y Field.modulus) mod Field.modulus).
Proof.
  intros Hy. unfold Field.div.
  destruct (Z.eqb_spec (y mod Field.modulus) 0); [contradiction | reflexivity].
Qed.

(** Field division by a power of two undoes the multiplication by it. *)
Lemma div_pow2_exact (q n : Z) :
  0 <= n <= 254 -> 0 <= q < Field.modulus ->
  Field.div (Field.from (2 ^ n * q)) (2 ^ n) = Ok q.
Proof.
  intros Hn Hq. pose proof (pow2_lt_modulus n Hn) as Hp.
  pose proof modulus_bounds as Hm. assert (0 < 2 ^ 254) by reflexivity.
  rewrite div_returns by (rewrite Z.mod_small; lia).
  f_equal. unfold Field.from.
  rewrite Z.mul_mod_idemp_l by lia.
  replace (2 ^ n * q * Z.invmod (2 ^ n) Field.modulus)
    with (q * (Z.invmod (2 ^ n) Field.modulus * 2 ^ n)) by ring.
  rewrite <- Z.mul_mod_idemp_r by lia.
  rewrite Z.invmod_coprime by (try apply coprime_pow2_modulus; lia).
  rewrite Z.mul_1_r. apply Z.mod_small; lia.
Qed.

Lemma ofBits_nibble (f len_xor k start stop : Z) :
  0 < len_xor -> 4 * len_xor <= 255 -> 0 <= k <= 3 ->
  start = k * len_xor -> stop = start + len_xor ->
  Gadget.ofBits f start stop = Ok (Gadget.nibble f len_xor k).
Proof.
  intros Hw H4 Hk -> ->. rewrite ofBits_returns by nia.
  unfold Gadget.nibble. do 3 f_equal. lia.
Qed.

(** Removing the four low nibbles leaves the rest, shifted up. *)
Lemma nibbles_decompose (f w : Z) :
  0 <= f -> 0 < w ->
  f - Gadget.nibble f w 0 - Gadget.nibble f w 1 * 2 ^ w
    - Gadget.nibble f w 2 * 2 ^ (2 * w) - Gadget.nibble f w 3 * 2 ^ (3 * w)
  = 2 ^ (4 * w) * (f / 2 ^ (4 * w)).
Proof.
  intros Hf Hw. unfold Gadget.nibble.
  set (B := 2 ^ w). assert (HB : 0 < B) by (apply Z.pow_pos_nonneg; lia).
  assert (E0 : 2 ^ (0 * w) = 1) by reflexivity.
  assert (E1 : 2 ^ (1 * w) = B) by (subst B; f_equal; lia).
  assert (E2 : 2 ^ (2 * w) = B * B)
    by (subst B; rewrite <- Z.pow_add_r by lia; f_equal; lia).
  assert (E3 : 2 ^ (3 * w) = B * B * B)
    by (subst B; rewrite <- !Z.pow_add_r by lia; f_equal; lia).
  assert (E4 : 2 ^ (4 * w) = B * B * B * B)
    by (subst B; rewrite <- !Z.pow_add_r by lia; f_equal; lia).
  rewrite E0, E1, E2, E3, E4, Z.div_1_r.
  rewrite <- !Z.div_div by nia.
  set (q1 := f / B). set (q2 := q1 / B). set (q3 := q2 / B). set (q4 := q3 / B).
  pose proof (Z.div_mod f B ltac:(lia)) as H0. fold q1 in H0.
  pose proof (Z.div_mod q1 B ltac:(lia)) as H1. fold q2 in H1.
  pose proof (Z.div_mod q2 B ltac:(lia)) as H2. fold q3 in H2.
  pose proof (Z.div_mod q3 B ltac:(lia)) as H3. fold q4 in H3.
  replace (f mod B) with (f - B * q1) by lia.
  replace (q1 mod B) with (q1 - B * q2) by lia.
  replace (q2 mod B) with (q2 - B * q3) by lia.
  replace (q3 mod B) with (q3 - B * q4) by lia.
  ring.
Qed.

Lemma sub_from_mul (a b c : Z) :
  Field.sub (Field.from a) (Field.mul b c) = Field.from (a - b * c).
Proof.
  unfold Field.sub, Field.mul, Field.from.
  rewrite Zminus_mod_idemp_l, Zminus_mod_idemp_r. reflexivity.
Qed.

(** On the nibbles of [f] itself, [asProverNextVar] shifts [f] down by four
    nibbles. *)
Lemma asProverNextVar_shift (f w : Z) :
  0 < w -> 4 * w <= 255 -> 0 <= f < Field.modulus ->
  Gadget.asProverNextVar f (Gadget.nibble f w 0) (Gadget.nibble f w 1)
                         (Gadget.nibble f w 2) (Gadget.nibble f w 3) w
  = Ok (f / 2 ^ (4 * w)).
Proof.
  intros Hw H4 Hf. unfold Gadget.asProverNextVar. cbv zeta.
  destruct (twoPow_chain w Hw H4) as (E1 & E2 & E3 & E4).
  rewrite E4, E3, E2, E1.
  assert (Hp : 0 < 2 ^ (4 * w)) by (apply Z.pow_pos_nonneg; lia).
  assert (Hq : 0 <= f / 2 ^ (4 * w) <= f).
  { split; [apply Z.div_pos; lia |].
    apply Z.div_le_upper_bound; nia. }
  rewrite <- (div_pow2_exact (f / 2 ^ (4 * w)) (4 * w)) by lia.
  f_equal. rewrite <- nibbles_decompose by lia.
  change (Field.sub f (Gadget.nibble f w 0)) with (Field.from (f - Gadget.nibble f w 0)).
  rewrite !sub_from_mul. reflexivity.
Qed.

(** Whatever the operands are, [asProverNextVar] returns when four nibbles
    fit the bit width. *)
Lemma asProverNextVar_returns (current v0 v1 v2 v3 w : Z) :
  0 < w -> 4 * w <= 255 ->
  exists next, Gadget.asProverNextVar current v0 v1 v2 v3 w = Ok next.
Proof.
  intros Hw H4. unfold Gadget.asProverNextVar. cbv zeta.
  destruct (twoPow_chain w Hw H4) as (E1 & E2 & E3 & E4).
  rewrite E4. eexists. apply div_returns.
  pose proof (pow2_lt_modulus (4 * w) ltac:(lia)).
  rewrite Z.mod_small; lia.
Qed.

(** ** The chain built by [xorRec] *)

(** One round of the chain: a call with a non-zero pad length emits one XOR
    row and calls itself on the three remainders, with the pad length
    decreased by [4 * len_xor]. *)
Lemma xorRec_step (fuel : nat) (in1 in2 out padLength w : Z) (gs : list Gates.gate) :
  0 < w -> 4 * w <= 255 -> padLength <> 0 ->
  exists n1 n2 n3 g,
    Gadget.xorRec (S fuel) in1 in2 out padLength w gs
    = Gadget.xorRec fuel n1 n2 n3 (padLength - 4 * w) w (gs ++ [g])
    /\ Gates.is_xor g = true /\ Gates.is_zeroCheck g = false
    /\ (0 <= in1 < Field.modulus -> n1 = in1 / 2 ^ (4 * w))
    /\ (0 <= in2 < Field.modulus -> n2 = in2 / 2 ^ (4 * w))
    /\ (0 <= out < Field.modulus -> n3 = out / 2 ^ (4 * w)).
Proof.
  intros Hw H4 Hp.
  destruct (asProverNextVar_returns in1 (Gadget.nibble in1 w 0) (Gadget.nibble in1 w 1)
              (Gadget.nibble in1 w 2) (Gadget.nibble in1 w 3) w Hw H4) as [n1 E1].
  destruct (asProverNextVar_returns in2 (Gadget.nibble in2 w 0) (Gadget.nibble in2 w 1)
              (Gadget.nibble in2 w 2) (Gadget.nibble in2 w 3) w Hw H4) as [n2 E2].
  destruct (asProverNextVar_returns out (Gadget.nibble out w 0) (Gadget.nibble out w 1)
              (Gadget.nibble out w 2) (Gadget.nibble out w 3) w Hw H4) as [n3 E3].
  exists n1, n2, n3.
  eexists (Gates.Xor in1 in2 out _ _ _ _ _ _ _ _ _ _ _ _).
  split; [| repeat split].
  - cbn [Gadget.xorRec].
    destruct (Z.eqb_spec padLength 0); [contradiction |].
    unfold cbind, lift, emit.
    rewrite !(ofBits_nibble _ w 0 0 w) by lia.
    rewrite !(ofBits_nibble _ w 1 w (w + w)) by lia.
    rewrite !(ofBits_nibble _ w 2 (w + w) (w + w + w)) by lia.
    rewrite !(ofBits_nibble _ w 3 (w + w + w) (w + w + w + w)) by lia.
    rewrite E1, E2, E3. reflexivity.
  - intros H. rewrite asProverNextVar_shift in E1 by assumption. congruence.
  - intros H. rewrite asProverNextVar_shift in E2 by assumption. congruence.
  - intros H. rewrite asProverNextVar_shift in E3 by assumption. congruence.
Qed.

(** A pad length that is not zero and lies below [4 * len_xor] is never
    brought to zero: the recursion uses up any budget. *)
Lemma xorRec_never_returns (fuel : nat) :
  forall (in1 in2 out padLength w : Z) (gs : list Gates.gate),
    0 < w -> 4 * w <= 255 -> padLength <> 0 -> padLength < 4 * w ->
    Gadget.xorRec fuel in1 in2 out padLength w gs = OutOfFuel.
Proof.
  induction fuel as [| fuel IH]; intros in1 in2 out padLength w gs Hw H4 Hp Hlt.
  - reflexivity.
  - destruct (xorRec_step fuel in1 in2 out padLength w gs Hw H4 Hp)
      as (n1 & n2 & n3 & g & E & _).
    rewrite E. apply IH; lia.
Qed.

(** A pad length of [k] groups is consumed by [k] rounds and one
    terminating zero-check, provided the operands fit in the pad length. *)
Lemma xorRec_chain (k : nat) :
  forall (fuel : nat) (in1 in2 out w : Z) (gs : list Gates.gate),
    0 < w -> 4 * w <= 255 -> (k < fuel)%nat ->
    0 <= in1 < Field.modulus -> in1 < 2 ^ (4 * w * Z.of_nat k) ->
    0 <= in2 < Field.modulus -> in2 < 2 ^ (4 * w * Z.of_nat k) ->
    0 <= out < Field.modulus -> out < 2 ^ (4 * w * Z.of_nat k) ->
    exists gates,
      Gadget.xorRec fuel in1 in2 out (4 * w * Z.of_nat k) w gs = Ok (tt, gs ++ gates)
      /\ length (filter Gates.is_xor gates) = k
      /\ length (filter Gates.is_zeroCheck gates) = 1%nat.
Proof.
  induction k as [| k IH];
    intros fuel in1 in2 out w gs Hw H4 Hfuel R1 B1 R2 B2 R3 B3;
    (destruct fuel as [| fuel]; [lia |]).
  - rewrite Z.mul_0_r in *. change (2 ^ 0) with 1 in *.
    assert (in1 = 0) by lia. assert (in2 = 0) by lia. assert (out = 0) by lia.
    subst. exists [Gates.ZeroCheck 0 0 0]. repeat split.
  - assert (Hp : 4 * w * Z.of_nat (S k) <> 0) by lia.
    destruct (xorRec_step fuel in1 in2 out _ w gs Hw H4 Hp)
      as (n1 & n2 & n3 & g & E & Hx & Hz & N1 & N2 & N3).
    rewrite E, (N1 R1), (N2 R2), (N3 R3).
    replace (4 * w * Z.of_nat (S k) - 4 * w) with (4 * w * Z.of_nat k) by lia.
    assert (Hshift : forall x, 0 <= x < Field.modulus -> x < 2 ^ (4 * w * Z.of_nat (S k)) ->
                               0 <= x / 2 ^ (4 * w) < Field.modulus
                               /\ x / 2 ^ (4 * w) < 2 ^ (4 * w * Z.of_nat k)).
    { intros x Rx Bx.
      assert (0 < 2 ^ (4 * w)) by (apply Z.pow_pos_nonneg; lia).
      assert (0 <= x / 2 ^ (4 * w) <= x).
      { split; [apply Z.div_pos; lia | apply Z.div_le_upper_bound; nia]. }
      split; [lia |].
      apply Z.div_lt_upper_bound; [lia |].
      rewrite <- Z.pow_add_r by lia.
      replace (4 * w + 4 * w * Z.of_nat k) with (4 * w * Z.of_nat (S k)) by lia.
      assumption. }
    destruct (Hshift in1 R1 B1), (Hshift in2 R2 B2), (Hshift out R3 B3).
    destruct (IH fuel (in1 / 2 ^ (4 * w)) (in2 / 2 ^ (4 * w)) (out / 2 ^ (4 * w))
                 w (gs ++ [g])) as (gates & Eg & Cx & Cz); try assumption; try lia.
    exists (g :: gates). rewrite Eg, <- app_assoc. cbn [app filter].
    rewrite Hx, Hz. cbn [length]. repeat split; [congruence | assumption].
Qed.

(** ** The witnessed output *)

Lemma lxor_lt_pow2 (a b n : Z) :
  0 <= n -> 0 <= a < 2 ^ n -> 0 <= b < 2 ^ n -> 0 <= Z.lxor a b < 2 ^ n.
Proof.
  intros Hn Ha Hb.
  assert (Hnn : 0 <= Z.lxor a b) by (apply Z.lxor_nonneg; lia).
  split; [assumption |].
  destruct (Z.eq_dec (Z.lxor a b) 0) as [-> | Hx]; [apply Z.pow_pos_nonneg; lia |].
  assert (0 < n).
  { destruct (Z.eq_dec n 0) as [-> | ?]; [| lia].
    change (2 ^ 0) with 1 in *. assert (a = 0) by lia. assert (b = 0) by lia.
    subst. contradiction Hx. reflexivity. }
  apply Z.log2_lt_pow2; [lia |].
  pose proof (Z.log2_lxor a b ltac:(lia) ltac:(lia)) as Hl.
  assert (Z.log2 a < n).
  { destruct (Z.eq_dec a 0) as [-> | ?]; [simpl; lia | apply Z.log2_lt_pow2; lia]. }
  assert (Z.log2 b < n).
  { destruct (Z.eq_dec b 0) as [-> | ?]; [simpl; lia | apply Z.log2_lt_pow2; lia]. }
  lia.
Qed.

Lemma map_combine_same {A B C D : Type} (f : A -> B) (g : A -> C) (h : B * C -> D)
      (l : list A) :
  map h (combine (map f l) (map g l)) = map (fun x => h (f x, g x)) l.
Proof. induction l as [| x l IH]; [reflexivity | simpl; rewrite IH; reflexivity]. Qed.

Lemma fitsInBits_returns (word length : Z) :
  0 <= length -> word < 2 ^ length -> Gadget.fitsInBits word length = Ok tt.
Proof.
  intros Hl Hw. unfold Gadget.fitsInBits.
  destruct (Z.ltb_spec length 0); [lia |].
  destruct (Z.ltb_spec word (2 ^ length)); [reflexivity | lia].
Qed.

(** The witness of [xor] is the bitwise XOR of its operands, reduced into
    the field. *)
Lemma outputXor_returns (a b length : Z) :
  0 <= length -> 0 <= a < 2 ^ length -> 0 <= b < 2 ^ length ->
  Gadget.outputXor a b length = Ok (Field.from (Z.lxor a b mod 2 ^ 255)).
Proof.
  intros Hl Ha Hb. unfold Gadget.outputXor.
  rewrite !fitsInBits_returns by lia.
  cbn [bind]. f_equal. unfold Field.fromBits. f_equal.
  unfold Field.toBits. rewrite map_combine_same.
  rewrite (map_ext _ (fun i => Z.testbit (Z.lxor a b) (Z.of_nat i))).
  - rewrite bitsToZ_testbits. change (2 ^ Z.of_nat 0) with 1. rewrite Z.div_1_r.
    reflexivity.
  - intros i. rewrite Z.lxor_spec.
    destruct (Z.testbit a (Z.of_nat i)), (Z.testbit b (Z.of_nat i)); reflexivity.
Qed.

Lemma xor_value_returns (a b length w : Z) :
  0 < w -> 0 < length <= 255 ->
  0 <= a < 2 ^ length -> 0 <= b < 2 ^ length ->
  Gadget.xor_value a b length w = Ok (Field.from (Z.lxor a b mod 2 ^ 255)).
Proof.
  intros Hw Hl Ha Hb. unfold Gadget.xor_value, Field.sizeInBits.
  destruct (Z.gtb_spec length 0); [| lia].
  destruct (Z.gtb_spec w 0); [| lia].
  destruct (Z.leb_spec length 255); [| lia].
  cbn [andb assert bind].
  rewrite !fitsInBits_returns by lia. cbn [bind].
  apply outputXor_returns; lia.
Qed.

Lemma xor_value_exact (a b length w : Z) :
  0 < w -> 0 < length <= 255 ->
  0 <= a < 2 ^ length -> 0 <= b < 2 ^ length -> Z.lxor a b < Field.modulus ->
  Gadget.xor_value a b length w = Ok (Z.lxor a b).
Proof.
  intros Hw Hl Ha Hb Hx. rewrite xor_value_returns by assumption. f_equal.
  pose proof (lxor_lt_pow2 a b length ltac:(lia) Ha Hb).
  assert (2 ^ length <= 2 ^ 255) by (apply Z.pow_le_mono_r; lia).
  rewrite (Z.mod_small (Z.lxor a b)) by lia.
  apply from_small. lia.
Qed.

(** [xor] returns what [xor_value] computes, whenever it returns. *)
Lemma xor_returns_xor_value (fuel : nat) (a b length w out : Z) (gs gs' : list Gates.gate) :
  Gadget.xor fuel a b length w gs = Ok (out, gs') ->
  Gadget.xor_value a b length w = Ok out.
Proof.
  unfold Gadget.xor, cbind, lift, cret. intros H.
  destruct (Gadget.xor_value a b length w) as [v | e |]; try discriminate.
  destruct (Gadget.xorRec fuel a b v (Gadget.padLength length w) w gs) as [[[] g] | e |];
    try discriminate.
  congruence.
Qed.

(** A positive multiple of [4 * len_xor] is at least [4 * len_xor]. *)
Lemma aligned_length_ge (length w : Z) :
  0 < w -> 0 < length -> Z.rem length (4 * w) = 0 -> 4 * w <= length.
Proof.
  intros Hw Hl Hr. rewrite Z.rem_mod_nonneg in Hr by lia.
  apply Z.mod_divide in Hr; [| lia]. destruct Hr as [q Hq].
  assert (0 < q) by nia. nia.
Qed.

(** Off the multiples of [4 * len_xor], with four nibbles fitting the bit
    width and operands that fit in [length] bits, [xor] builds the whole
    chain of the specification, one XOR row for each group of
    [4 * len_xor] bits of the pad length and one terminating zero-check, and
    returns the witnessed value, on any budget above the number of groups. *)
Lemma xor_unaligned_returns (fuel : nat) (a b length w : Z) (gs : list Gates.gate) :
  0 < w -> 4 * w <= 255 -> 0 < length <= 255 -> Z.rem length (4 * w) <> 0 ->
  0 <= a < 2 ^ length -> 0 <= b < 2 ^ length ->
  a < Field.modulus -> b < Field.modulus ->
  (Z.to_nat (Gadget.padLength length w / (4 * w)) < fuel)%nat ->
  exists gates,
    Gadget.xor fuel a b length w gs = Ok (Field.from (Z.lxor a b), gs ++ gates)
    /\ List.length (filter Gates.is_xor gates)
       = Z.to_nat (Gadget.padLength length w / (4 * w))
    /\ List.length (filter Gates.is_zeroCheck gates) = 1%nat.
Proof.
  intros Hw H4 Hl Hr Ha Hb Pa Pb Hfuel.
  unfold Gadget.xor, cbind, lift, cret.
  rewrite xor_value_returns by assumption.
  pose proof (lxor_lt_pow2 a b length ltac:(lia) Ha Hb) as Hx.
  assert (H255 : 2 ^ length <= 2 ^ 255) by (apply Z.pow_le_mono_r; lia).
  rewrite (Z.mod_small (Z.lxor a b)) by lia.
  pose proof (padLength_unaligned_spec length w Hw ltac:(lia) Hr) as Hs.
  destruct (padLength_spec_least length w Hw) as ([q Hq] & Hge & _).
  rewrite <- Hs in Hq, Hge.
  assert (Hq0 : 0 <= q) by nia.
  assert (Hdiv : Gadget.padLength length w / (4 * w) = q)
    by (rewrite Hq; apply Z.div_mul; lia).
  rewrite Hdiv in *.
  assert (Hpl : Gadget.padLength length w = 4 * w * Z.of_nat (Z.to_nat q))
    by (rewrite Z2Nat.id by lia; lia).
  assert (Hpow : 2 ^ length <= 2 ^ (4 * w * Z.of_nat (Z.to_nat q)))
    by (apply Z.pow_le_mono_r; lia).
  pose proof (from_range (Z.lxor a b)) as Ro.
  assert (Bo : Field.from (Z.lxor a b) <= Z.lxor a b).
  { unfold Field.from. apply Z.mod_le; [lia |].
    pose proof modulus_bounds. assert (0 < 2 ^ 254) by reflexivity. lia. }
  rewrite Hpl.
  destruct (xorRec_chain (Z.to_nat q) fuel a b (Field.from (Z.lxor a b)) w gs)
    as (gates & E & Cx & Cz); try lia.
  exists gates. rewrite E. repeat split; assumption.
Qed.

(** The returned value is the bitwise XOR itself when that is a field
    element, as it is for every [length] up to 254. *)
Lemma xor_unaligned_exact (fuel : nat) (a b length w : Z) (gs : list Gates.gate) :
  0 < w -> 4 * w <= 255 -> 0 < length <= 255 -> Z.rem length (4 * w) <> 0 ->
  0 <= a < 2 ^ length -> 0 <= b < 2 ^ length ->
  a < Field.modulus -> b < Field.modulus -> Z.lxor a b < Field.modulus ->
  (Z.to_nat (Gadget.padLength length w / (4 * w)) < fuel)%nat ->
  exists gates, Gadget.xor fuel a b length w gs = Ok (Z.lxor a b, gs ++ gates).
Proof.
  intros Hw H4 Hl Hr Ha Hb Pa Pb Px Hfuel.
  destruct (xor_unaligned_returns fuel a b length w gs) as (gates & E & _);
    try assumption.
  exists gates. rewrite E. do 2 f_equal. apply from_small.
  pose proof (lxor_lt_pow2 a b length ltac:(lia) Ha Hb). lia.
Qed.

Lemma lxor_field_element (a b length : Z) :
  0 < length <= 254 -> 0 <= a < 2 ^ length -> 0 <= b < 2 ^ length ->
  Z.lxor a b < Field.modulus.
Proof.
  intros Hl Ha Hb.
  pose proof (lxor_lt_pow2 a b length ltac:(lia) Ha Hb).
  pose proof (pow2_lt_modulus length ltac:(lia)). lia.
Qed.

(** In the witness phase a nibble width above 63 makes the bit slicing of
    the first round throw: the fourth nibble would end beyond the 255 bits
    of a field element. *)
Lemma xor_wide_nibble_throws :
  Gadget.xor 2 1 2 5 64 [] = Throw (Error "stop must be less than bit-length").
Proof. vm_compute. reflexivity. Qed.

(** ** The claims on the XOR gadget *)

(** C1. The claim: for 0 < length <= 255 and a, b < 2^length, xor(a, b, length)
    returns the bitwise XOR.  The code: at length 16 (a = 1, b = 2, default
    nibble width 4) the value witnessed is 1 XOR 2, but the pad length is
    set to 4 instead of 16, the recursion of xorRec steps from 4 to -12,
    -28, ... and never meets the terminal case, so the call returns nothing,
    on any budget. *)
Theorem xor_length_16_never_returns :
  forall (fuel : nat) (gs : list Gates.gate),
    Gadget.xor fuel 1 2 16 4 gs = OutOfFuel
    /\ Gadget.xor_value 1 2 16 4 = Ok (Z.lxor 1 2).
Proof.
  intros fuel gs.
  assert (E : Gadget.xor_value 1 2 16 4 = Ok (Z.lxor 1 2))
    by (apply xor_value_exact; try lia; reflexivity).
  split; [| exact E].
  unfold Gadget.xor, cbind, lift. rewrite E.
  rewrite padLength_aligned by reflexivity.
  rewrite xorRec_never_returns by lia. reflexivity.
Qed.

(** On a multiple of [4 * len_xor] the chain is started with a pad length
    that no number of steps brings to zero. *)
Lemma xorRec_aligned_out_of_fuel
      (fuel : nat) (a b out length len_xor : Z) (gs : list Gates.gate) :
  0 < len_xor -> 0 < length <= 255 -> Z.rem length (4 * len_xor) = 0 ->
  Gadget.xorRec fuel a b out (Gadget.padLength length len_xor) len_xor gs = OutOfFuel.
Proof.
  intros Hw Hl Hr.
  pose proof (aligned_length_ge length len_xor Hw ltac:(lia) Hr) as Hge.
  rewrite padLength_aligned by assumption.
  apply xorRec_never_returns; lia.
Qed.

Lemma xor_aligned_out_of_fuel
      (fuel : nat) (a b length len_xor : Z) (gs : list Gates.gate) :
  0 < len_xor -> 0 < length <= 255 -> Z.rem length (4 * len_xor) = 0 ->
  0 <= a < 2 ^ length -> 0 <= b < 2 ^ length ->
  Gadget.xor fuel a b length len_xor gs = OutOfFuel.
Proof.
  intros Hw Hl Hr Ha Hb. unfold Gadget.xor, cbind, lift.
  rewrite xor_value_returns by (assumption || lia).
  rewrite xorRec_aligned_out_of_fuel by assumption. reflexivity.
Qed.

(** C2. The claim: for every length and nibble width within the
    preconditions the chain of xorRec reaches the terminal step and the call
    returns.  The code: whenever length is a multiple of 4 * len_xor the pad
    length starts at len_xor, every step subtracts 4 * len_xor, zero is
    never met, and xor does not return; with operands that fit in length
    bits it exhausts every budget. *)
Theorem xor_aligned_never_returns
        (fuel : nat) (a b length len_xor : Z) (gs : list Gates.gate) :
  0 < len_xor -> 0 < length <= Field.sizeInBits ->
  Z.rem length (4 * len_xor) = 0 ->
  ~ returns (Gadget.xor fuel a b length len_xor gs)
  /\ (0 <= a < 2 ^ length -> 0 <= b < 2 ^ length ->
      Gadget.xor fuel a b length len_xor gs = OutOfFuel).
Proof.
  unfold Field.sizeInBits. intros Hw Hl Hr. split.
  - intros [[out gs'] H]. unfold Gadget.xor, cbind, lift in H.
    destruct (Gadget.xor_value a b length len_xor) as [v | e |]; try discriminate.
    rewrite xorRec_aligned_out_of_fuel in H by assumption. discriminate.
  - intros Ha Hb. apply xor_aligned_out_of_fuel; assumption.
Qed.

Lemma xor_aligned_never_returns_witness :
  Gadget.xor 1000 5 3 64 4 [] = OutOfFuel.
Proof.
  apply (xor_aligned_never_returns 1000 5 3 64 4 []);
    unfold Field.sizeInBits; first [reflexivity | lia].
Defined.

(** C3. The claim: the pad length is the smallest multiple of 4 * len_xor
    that is at least length, also when length is such a multiple.  The code:
    on a multiple of 4 * len_xor the pad length is len_xor, not length, which
    is the smallest such multiple. *)
Theorem padLength_aligned_is_len_xor (length len_xor : Z) :
  0 < len_xor -> 0 < length -> Z.rem length (4 * len_xor) = 0 ->
  Gadget.padLength length len_xor = len_xor
  /\ Gadget.padLength_spec length len_xor = length
  /\ Gadget.padLength length len_xor < Gadget.padLength_spec length len_xor.
Proof.
  intros Hw Hl Hr.
  pose proof (aligned_length_ge length len_xor Hw Hl Hr) as Hge.
  assert (Hs : Gadget.padLength_spec length len_xor = length).
  { unfold Gadget.padLength_spec. rewrite Z.rem_mod_nonneg in Hr by lia.
    apply Z.mod_divide in Hr; [| lia]. destruct Hr as [q Hq].
    assert (E : (length + 4 * len_xor - 1) / (4 * len_xor) = q).
    { symmetry. apply Z.div_unique with (r := 4 * len_xor - 1); lia. }
    rewrite E. lia. }
  rewrite padLength_aligned by assumption. repeat split; [assumption | lia].
Qed.

Lemma padLength_aligned_is_len_xor_witness :
  Gadget.padLength 16 4 = 4 /\ Gadget.padLength_spec 16 4 = 16
  /\ Gadget.padLength 16 4 < Gadget.padLength_spec 16 4.
Proof. apply (padLength_aligned_is_len_xor 16 4); [lia | lia | reflexivity]. Defined.

(** ** Padding *)

Lemma set_nth_repeat_last {A : Type} (undef v x : A) (n : nat) :
  set_nth undef n x (repeat v (S n)) = repeat v n ++ [x].
Proof. induction n as [| n IH]; [reflexivity |]. cbn [repeat set_nth app] in *. rewrite IH. reflexivity. Qed.

(** The bytes that [pad] appends when [extraBytes] bytes are missing. *)
Lemma pad_returns (message : array) (rate : Z) (nist : bool) :
  0 < rate ->
  let extraBytes := rate - Z.of_nat (length message) mod rate in
  let first := if nist then 0x06 else 0x01 in
  Keccak.pad message rate nist
  = Ok (message ++
        if extraBytes =? 1 then [Fld (Field.add (Field.from first) 0x80)]
        else Fld (Field.from first)
             :: repeat (Fld (Field.from 0)) (Z.to_nat (extraBytes - 2))
             ++ [Fld (Field.add (Field.from 0) 0x80)]).
Proof.
  intros Hr extraBytes first. unfold Keccak.pad, Keccak.bytesToPad, js_rem.
  destruct (Z.eqb_spec rate 0) as [? | _]; [lia |]. cbn [option_map].
  rewrite Z.rem_mod_nonneg by lia. fold extraBytes. fold first.
  pose proof (Z.mod_pos_bound (Z.of_nat (length message)) rate Hr) as Hb.
  assert (He : 1 <= extraBytes <= rate) by (subst extraBytes; lia).
  unfold js_fill. destruct (Z.ltb_spec extraBytes 0) as [? | _]; [lia |]. cbn [bind].
  destruct (Z.to_nat extraBytes) as [| n] eqn:En; [lia |].
  cbn [repeat]. unfold js_get, js_set.
  change (0 <? 0) with false. change (Z.to_nat 0) with 0%nat. cbn [set_nth].
  destruct (Z.ltb_spec (extraBytes - 1) 0) as [? | _]; [lia |].
  replace (Z.to_nat (extraBytes - 1)) with n by lia.
  destruct (Z.eqb_spec extraBytes 1) as [E1 | E1].
  - assert (n = 0%nat) by lia. subst n. reflexivity.
  - destruct n as [| n]; [lia |].
    cbn [nth set_nth]. rewrite nth_repeat_lt by lia. cbn [as_field bind].
    rewrite set_nth_repeat_last.
    replace (Z.to_nat (extraBytes - 2)) with n by lia. reflexivity.
Qed.

(** C5. For every message, every rate r > 0 and either flag, pad returns a
    sequence whose length is a multiple of r; when the length of the message
    is already a multiple of r, a whole block of r bytes is appended. *)
Theorem pad_length_multiple_of_rate (message : array) (rate : Z) (nist : bool) :
  0 < rate ->
  exists padded,
    Keccak.pad message rate nist = Ok padded
    /\ Z.of_nat (length padded) mod rate = 0
    /\ (Z.of_nat (length message) mod rate = 0 ->
        Z.of_nat (length padded) = Z.of_nat (length message) + rate).
Proof.
  intros Hr. rewrite pad_returns by assumption. eexists. split; [reflexivity |].
  pose proof (Z.mod_pos_bound (Z.of_nat (length message)) rate Hr) as Hb.
  set (extraBytes := rate - Z.of_nat (length message) mod rate) in *.
  assert (Hlen : Z.of_nat (length
            (message ++
             (if extraBytes =? 1 then [Fld (Field.add (Field.from (if nist then 6 else 1)) 128)]
              else Fld (Field.from (if nist then 6 else 1))
                   :: repeat (Fld (Field.from 0)) (Z.to_nat (extraBytes - 2))
                   ++ [Fld (Field.add (Field.from 0) 128)])))
          = Z.of_nat (length message) + extraBytes).
  { rewrite length_app. destruct (Z.eqb_spec extraBytes 1).
    - cbn [length]. lia.
    - cbn [length]. rewrite length_app, repeat_length. cbn [length]. lia. }
  rewrite Hlen. split.
  - subst extraBytes.
    pose proof (Z.div_mod (Z.of_nat (length message)) rate ltac:(lia)) as Hdm.
    apply Z.mod_divide; [lia |].
    exists (Z.of_nat (length message) / rate + 1). lia.
  - intros H0. subst extraBytes. lia.
Qed.

Lemma pad_length_multiple_of_rate_witness :
  exists padded,
    Keccak.pad [Fld 1; Fld 2; Fld 3; Fld 4] 4 true = Ok padded
    /\ Z.of_nat (length padded) mod 4 = 0
    /\ (Z.of_nat (length [Fld 1; Fld 2; Fld 3; Fld 4]) mod 4 = 0 ->
        Z.of_nat (length padded) = Z.of_nat (length [Fld 1; Fld 2; Fld 3; Fld 4]) + 4).
Proof. apply (pad_length_multiple_of_rate [Fld 1; Fld 2; Fld 3; Fld 4] 4 true). lia. Defined.

(** C9. When exactly one padding byte is needed, pad appends the single byte
    0x86 (NIST) or 0x81 (pre-NIST): the marker of the first pad byte and the
    final 0x80 are added in the same byte. *)
Theorem pad_single_byte (message : array) (rate : Z) (nist : bool) :
  0 < rate -> Z.of_nat (length message) mod rate = rate - 1 ->
  Keccak.pad message rate nist = Ok (message ++ [Fld (if nist then 0x86 else 0x81)]).
Proof.
  intros Hr Hm. rewrite pad_returns by assumption. rewrite Hm.
  replace (rate - (rate - 1)) with 1 by lia. cbn [Z.eqb Pos.eqb].
  destruct nist; reflexivity.
Qed.

Lemma pad_single_byte_witness :
  Keccak.pad [Fld 7; Fld 8] 3 true = Ok ([Fld 7; Fld 8] ++ [Fld 0x86]).
Proof. apply (pad_single_byte [Fld 7; Fld 8] 3 true); [lia | reflexivity]. Defined.

(** ** The state *)

Lemma js_slice_nonneg {A : Type} (arr : list A) (start stop : Z) :
  0 <= start <= stop ->
  js_slice arr start stop
  = firstn (Z.to_nat (stop - start)) (skipn (Z.to_nat start) arr).
Proof.
  intros H. unfold js_slice, slice_index.
  destruct (Z.ltb_spec start 0) as [? | _]; [lia |].
  destruct (Z.ltb_spec stop 0) as [? | _]; [lia |].
  set (len := Z.of_nat (length arr)).
  destruct (Z.le_gt_cases stop len) as [Ht | Ht].
  - rewrite !Z.min_l by lia. reflexivity.
  - rewrite (Z.min_r stop) by lia.
    destruct (Z.le_gt_cases start len) as [Hs | Hs].
    + rewrite Z.min_l by lia.
      rewrite !firstn_all2; [reflexivity | |]; rewrite length_skipn; lia.
    + rewrite Z.min_r by lia.
      rewrite (skipn_all2 arr (n := Z.to_nat start)) by lia.
      rewrite firstn_nil. replace (len - len) with 0 by lia. reflexivity.
Qed.

(** A 5x5 state is a list of five lists of five slots. *)
Lemma is_5x5_inv (m : list array) :
  Keccak.is_5x5 m = true ->
  exists a0 a1 a2 a3 a4 b0 b1 b2 b3 b4 c0 c1 c2 c3 c4 d0 d1 d2 d3 d4 e0 e1 e2 e3 e4,
    m = [ [a0; a1; a2; a3; a4]; [b0; b1; b2; b3; b4]; [c0; c1; c2; c3; c4];
          [d0; d1; d2; d3; d4]; [e0; e1; e2; e3; e4] ].
Proof.
  unfold Keccak.is_5x5. intros H. apply andb_prop in H. destruct H as [Hl Hr].
  do 5 (destruct m as [| ? m]; [discriminate |]).
  destruct m; [| discriminate]. clear Hl.
  cbn [forallb] in Hr.
  repeat match goal with
         | H : (_ && _)%bool = true |- _ => apply andb_prop in H; destruct H
         end.
  repeat match goal with
         | H : (length ?row =? 5)%nat = true |- _ =>
           do 5 (destruct row as [| ? row]; [discriminate |]);
           (destruct row; [| discriminate]); clear H
         end.
  repeat eexists.
Qed.

(** [toWords] lists a 5x5 state with the first index varying fastest. *)
Lemma toWords_5x5 (a0 a1 a2 a3 a4 b0 b1 b2 b3 b4 c0 c1 c2 c3 c4
                   d0 d1 d2 d3 d4 e0 e1 e2 e3 e4 : value) :
  Keccak.State.toWords
    [ [a0; a1; a2; a3; a4]; [b0; b1; b2; b3; b4]; [c0; c1; c2; c3; c4];
      [d0; d1; d2; d3; d4]; [e0; e1; e2; e3; e4] ]
  = Ok [ a0; b0; c0; d0; e0; a1; b1; c1; d1; e1; a2; b2; c2; d2; e2;
         a3; b3; c3; d3; e3; a4; b4; c4; d4; e4 ].
Proof. reflexivity. Qed.

Lemma toWords_returns (state : list array) :
  Keccak.is_5x5 state = true ->
  exists words, Keccak.State.toWords state = Ok words /\ length words = 25%nat.
Proof.
  intros H. apply is_5x5_inv in H.
  repeat match goal with H : exists _, _ |- _ => destruct H end. subst.
  rewrite toWords_5x5. eexists. split; reflexivity.
Qed.

(** C10. For every array w of 25 slots, fromWords places w[5*j + i] at
    position [i][j] of the state, and toWords gives w back. *)
Theorem toWords_fromWords (w : array) :
  length w = 25%nat ->
  exists state,
    Keccak.State.fromWords w = Ok state
    /\ Keccak.State.toWords state = Ok w
    /\ forall i j, 0 <= i < 5 -> 0 <= j < 5 ->
                   cell_get state i j = Ok (js_get Undefined w (5 * j + i)).
Proof.
  intros Hw.
  do 25 (destruct w as [| ? w]; [discriminate |]).
  destruct w; [| discriminate]. clear Hw.
  eexists. split; [vm_compute; reflexivity |]. split; [vm_compute; reflexivity |].
  intros i j Hi Hj.
  assert (Ei : i = 0 \/ i = 1 \/ i = 2 \/ i = 3 \/ i = 4) by lia.
  assert (Ej : j = 0 \/ j = 1 \/ j = 2 \/ j = 3 \/ j = 4) by lia.
  clear Hi Hj.
  repeat (destruct Ei as [-> | Ei]); try subst i;
    repeat (destruct Ej as [-> | Ej]); try subst j; vm_compute; reflexivity.
Qed.

Lemma toWords_fromWords_witness :
  exists state,
    Keccak.State.fromWords (map Fld (range 25)) = Ok state
    /\ Keccak.State.toWords state = Ok (map Fld (range 25))
    /\ forall i j, 0 <= i < 5 -> 0 <= j < 5 ->
                   cell_get state i j = Ok (js_get Undefined (map Fld (range 25)) (5 * j + i)).
Proof. apply (toWords_fromWords (map Fld (range 25))). reflexivity. Defined.

(** ** Squeezing *)

(** For a positive rate the count of squeezes is one exactly below [rate]. *)
Lemma squeezes_one_iff (length rate : Z) :
  0 < rate -> 0 <= length ->
  (Keccak.squeezes length rate = Some 1 <-> length < rate).
Proof.
  intros Hr Hl. unfold Keccak.squeezes, Keccak.floor_div.
  destruct (Z.eqb_spec rate 0) as [? | _]; [lia |]. cbn [option_map].
  split; intros H.
  - injection H as H. assert (E : length / rate = 0) by lia.
    apply Z.div_small_iff in E; lia.
  - rewrite Z.div_small by lia. reflexivity.
Qed.

Lemma squeezes_more_iff (length rate : Z) :
  0 < rate -> 0 <= length ->
  ((exists n, Keccak.squeezes length rate = Some n /\ 1 < n) <-> rate <= length).
Proof.
  intros Hr Hl. unfold Keccak.squeezes, Keccak.floor_div.
  destruct (Z.eqb_spec rate 0) as [? | _]; [lia |]. cbn [option_map].
  split.
  - intros (n & E & Hn). injection E as E.
    destruct (Z.lt_ge_cases length rate) as [Hlt | Hge]; [| assumption].
    rewrite Z.div_small in E by lia. lia.
  - intros Hge. eexists. split; [reflexivity |].
    assert (1 <= length / rate) by (apply Z.div_le_lower_bound; lia). lia.
Qed.

Lemma squeeze_assertion (length rate : Z) :
  0 < rate -> 0 <= length ->
  match Keccak.squeezes length rate with Some 1 => true | _ => false end
  = (length <? rate).
Proof.
  intros Hr Hl.
  destruct (Z.ltb_spec length rate) as [Hlt | Hge].
  - apply squeezes_one_iff in Hlt; [| assumption | assumption]. rewrite Hlt. reflexivity.
  - apply squeezes_more_iff in Hge; [| assumption | assumption].
    destruct Hge as (n & -> & Hn).
    destruct n as [| [p | p |] | p]; try reflexivity; lia.
Qed.

(** C6, as the code has it: with a positive rate and a 5x5 state, the count
    of squeezes floor(length / rate) + 1 is 1 exactly when length < rate;
    squeeze then returns the first length words of the state, and it throws
    exactly when rate <= length, that is when the count is more than one,
    the case length = rate included. *)
Theorem squeeze_below_rate (state : list array) (length rate : Z) :
  0 < rate -> 0 <= length -> Keccak.is_5x5 state = true ->
  (Keccak.squeezes length rate = Some 1 <-> length < rate)
  /\ (length < rate ->
      exists words,
        Keccak.State.toWords state = Ok words
        /\ Keccak.squeeze state length rate = Ok (firstn (Z.to_nat length) words))
  /\ (throws (Keccak.squeeze state length rate) <-> rate <= length)
  /\ (rate <= length <-> exists n, Keccak.squeezes length rate = Some n /\ 1 < n).
Proof.
  intros Hr Hl Hs.
  destruct (toWords_returns state Hs) as (words & E & _).
  split; [apply squeezes_one_iff; assumption |].
  split; [| split; [| symmetry; apply squeezes_more_iff; assumption]].
  - intros Hlt. exists words. split; [assumption |].
    unfold Keccak.squeeze. rewrite squeeze_assertion by assumption.
    destruct (Z.ltb_spec length rate) as [_ | ?]; [| lia].
    cbn [assert bind]. rewrite E. cbn [bind].
    rewrite js_slice_nonneg by lia. rewrite Z.sub_0_r. reflexivity.
  - unfold Keccak.squeeze, throws. rewrite squeeze_assertion by assumption.
    destruct (Z.ltb_spec length rate) as [Hlt | Hge]; cbn [assert bind].
    + rewrite E. cbn [bind]. split; [intros [e He]; discriminate | lia].
    + split; [intros _; assumption | intros _; eexists; reflexivity].
Qed.

Lemma squeeze_below_rate_witness :
  (exists words,
      Keccak.State.toWords Keccak.State.zeros = Ok words
      /\ Keccak.squeeze Keccak.State.zeros 4 17 = Ok (firstn (Z.to_nat 4) words))
  /\ throws (Keccak.squeeze Keccak.State.zeros 17 17).
Proof.
  destruct (squeeze_below_rate Keccak.State.zeros 4 17) as (_ & H & _);
    [lia | lia | reflexivity |].
  destruct (squeeze_below_rate Keccak.State.zeros 17 17) as (_ & _ & H' & _);
    [lia | lia | reflexivity |].
  split; [apply H; lia | apply H'; lia].
Defined.

(** C6, as the claim words it, fails at the boundary: an output of five
    words fits within one rate of five words, which a single squeeze round
    yields, but the count of the code is two and squeeze throws. *)
Lemma squeeze_full_rate_throws :
  Keccak.fits_within_one_rate 5 5 = true
  /\ Keccak.squeezes 5 5 = Some 2
  /\ Keccak.squeeze Keccak.State.zeros 5 5 = Throw (Error "squeezes should be 1").
Proof. repeat split. Qed.

(** ** XOR of two states *)

(** C8, as the code has it: State.xor fails an assertion when an input does
    not have exactly five rows or its first row does not have exactly five
    slots; the other rows are not measured. *)
Theorem State_xor_checks_first_row (G : Gadgets) (a b : list array) :
  length a <> 5%nat \/ length (nth 0 a []) <> 5%nat
  \/ length b <> 5%nat \/ length (nth 0 b []) <> 5%nat ->
  exists message, Keccak.State.xor G a b = Throw (Error message).
Proof.
  intros H. unfold Keccak.State.xor, Keccak.KECCAK_DIM.
  destruct (Z.eqb_spec (Z.of_nat (length a)) 5) as [Ea | Ea];
    [| eexists; reflexivity].
  destruct (Z.eqb_spec (Z.of_nat (length (nth 0 a []))) 5) as [Ea0 | Ea0];
    [| eexists; reflexivity].
  destruct (Z.eqb_spec (Z.of_nat (length b)) 5) as [Eb | Eb];
    [| eexists; reflexivity].
  destruct (Z.eqb_spec (Z.of_nat (length (nth 0 b []))) 5) as [Eb0 | Eb0];
    [| eexists; reflexivity].
  lia.
Qed.

Lemma State_xor_checks_first_row_witness :
  exists message,
    Keccak.State.xor GadgetsImpl.contract
                     [[Fld 0; Fld 0; Fld 0; Fld 0]] Keccak.State.zeros
    = Throw (Error message).
Proof.
  apply (State_xor_checks_first_row GadgetsImpl.contract
           [[Fld 0; Fld 0; Fld 0; Fld 0]] Keccak.State.zeros).
  left. cbn [length]. lia.
Defined.

Lemma mapM_first_out_of_fuel {A B : Type} (f : A -> result B) (x : A) (l : list A) :
  f x = OutOfFuel -> mapM f (x :: l) = OutOfFuel.
Proof. intros H. cbn [mapM]. rewrite H. reflexivity. Qed.

(** With the XOR gadget of the source behind [Gadgets.xor], the first pair of
    lanes already exhausts any budget. *)
Lemma State_xor_source_out_of_fuel
      (fuel : nat) (x y : Z) (row brow : array) (rest brest : list array) :
  length ((Fld x :: row) :: rest) = 5%nat -> length (Fld x :: row) = 5%nat ->
  length ((Fld y :: brow) :: brest) = 5%nat -> length (Fld y :: brow) = 5%nat ->
  0 <= x < 2 ^ 64 -> 0 <= y < 2 ^ 64 ->
  Keccak.State.xor (GadgetsImpl.source fuel)
                   ((Fld x :: row) :: rest) ((Fld y :: brow) :: brest)
  = OutOfFuel.
Proof.
  intros La La0 Lb Lb0 Hx Hy. unfold Keccak.State.xor, array in *.
  cbn [nth]. rewrite La, La0, Lb, Lb0.
  change (Z.of_nat 5 =? Keccak.KECCAK_DIM) with true. cbn [andb assert bind].
  change (range 5) with (0 :: map Z.of_nat (seq 1 4)). cbn [combine].
  apply mapM_first_out_of_fuel.
  rewrite La0. change (range 5) with (0 :: map Z.of_nat (seq 1 4)). cbn [combine].
  apply mapM_first_out_of_fuel.
  change (cell_get ((Fld y :: brow) :: brest) 0 0) with
    (if (0 <? Z.of_nat (length ((Fld y :: brow) :: brest))) then Ok (Fld y)
     else @Throw value (TypeError "Cannot read properties of undefined")).
  rewrite Lb. cbn [Z.of_nat Z.ltb Z.compare bind as_field].
  cbn [g_xor GadgetsImpl.source].
  rewrite xor_aligned_out_of_fuel by (first [lia | reflexivity]). reflexivity.
Qed.

(** C8, as the claim words it, fails on a matrix with five rows whose second
    row is a slot short: both assertions pass, and the call returns when
    [Gadgets.xor] returns its value (and exhausts every budget, still
    without a failed assertion, when it runs the chain of the source). *)
Lemma State_xor_ragged_passes_assertions :
  Keccak.is_5x5 [ repeat (Fld 1) 5; repeat (Fld 1) 4; repeat (Fld 1) 5;
                  repeat (Fld 1) 5; repeat (Fld 1) 5 ] = false
  /\ Keccak.State.xor GadgetsImpl.contract
       [ repeat (Fld 1) 5; repeat (Fld 1) 4; repeat (Fld 1) 5;
         repeat (Fld 1) 5; repeat (Fld 1) 5 ]
       Keccak.State.zeros
     = Ok [ repeat (Fld 1) 5; repeat (Fld 1) 4; repeat (Fld 1) 5;
            repeat (Fld 1) 5; repeat (Fld 1) 5 ]
  /\ (forall fuel,
         Keccak.State.xor (GadgetsImpl.source fuel)
           [ repeat (Fld 1) 5; repeat (Fld 1) 4; repeat (Fld 1) 5;
             repeat (Fld 1) 5; repeat (Fld 1) 5 ]
           Keccak.State.zeros
         = OutOfFuel).
Proof.
  split; [reflexivity |]. split; [vm_compute; reflexivity |].
  intros fuel. apply State_xor_source_out_of_fuel;
    first [reflexivity | split; [apply Z.leb_le | apply Z.ltb_lt]; reflexivity].
Qed.

(** ** The word/byte codec *)

Lemma js_slice_app_drop {A : Type} (c rest : list A) (start stop : Z) :
  0 <= start <= stop ->
  js_slice (c ++ rest) (Z.of_nat (length c) + start) (Z.of_nat (length c) + stop)
  = js_slice rest start stop.
Proof.
  intros H. rewrite !js_slice_nonneg by lia.
  replace (Z.of_nat (length c) + stop - (Z.of_nat (length c) + start))
    with (stop - start) by lia.
  f_equal. rewrite skipn_app.
  rewrite skipn_all2 by lia. cbn [app]. f_equal. lia.
Qed.

Lemma js_slice_app_take {A : Type} (c rest : list A) :
  js_slice (c ++ rest) 0 (Z.of_nat (length c)) = c.
Proof.
  rewrite js_slice_nonneg by lia. cbn [Z.to_nat skipn].
  rewrite Z.sub_0_r, Nat2Z.id, firstn_app, Nat.sub_diag, firstn_all.
  cbn [firstn]. apply app_nil_r.
Qed.

(** [chunk] splits off the first group and chunks the rest. *)
Lemma chunk_cons {T : Type} (c rest : list T) (size : Z) (chunks : list (list T)) :
  0 < size -> Z.of_nat (length c) = size ->
  Keccak.chunk rest size = Ok chunks ->
  Keccak.chunk (c ++ rest) size = Ok (c :: chunks).
Proof.
  intros Hs Hc. unfold Keccak.chunk, js_rem.
  destruct (Z.eqb_spec size 0) as [? | _]; [lia |].
  rewrite !Z.rem_mod_nonneg by lia.
  rewrite length_app, Nat2Z.inj_add, Hc.
  destruct (Z.of_nat (length rest) mod size) as [| p | p] eqn:Er;
    cbn [assert bind]; try discriminate.
  intros Hch. injection Hch as <-.
  apply Z.mod_divide in Er; [| lia]. destruct Er as [q Hq].
  assert (Hq0 : 0 <= q) by nia.
  replace ((size + Z.of_nat (length rest)) mod size) with 0
    by (rewrite Hq; replace (size + q * size) with ((q + 1) * size) by ring;
        symmetry; apply Z.mod_mul; lia).
  cbn [assert bind]. f_equal.
  replace ((size + Z.of_nat (length rest)) / size) with (q + 1)
    by (rewrite Hq; replace (size + q * size) with ((q + 1) * size) by ring;
        symmetry; apply Z.div_mul; lia).
  replace (Z.of_nat (length rest) / size) with q
    by (rewrite Hq; symmetry; apply Z.div_mul; lia).
  replace (Z.to_nat (q + 1)) with (S (Z.to_nat q)) by lia.
  unfold range. cbn [seq map]. f_equal.
  - change (Z.of_nat 0) with 0. rewrite Z.mul_0_r. rewrite <- Hc.
    replace (Z.of_nat (length c) * (0 + 1)) with (Z.of_nat (length c)) by lia.
    apply js_slice_app_take.
  - rewrite <- seq_shift, !map_map. apply map_ext_in. intros i Hi.
    rewrite <- (js_slice_app_drop c rest) by nia.
    f_equal; lia.
Qed.

(** Eight bytes compose, least significant first, into a word below 2^64. *)
Lemma bytesToWord_8 (b0 b1 b2 b3 b4 b5 b6 b7 : Z) :
  Keccak.is_byte b0 -> Keccak.is_byte b1 -> Keccak.is_byte b2 -> Keccak.is_byte b3 ->
  Keccak.is_byte b4 -> Keccak.is_byte b5 -> Keccak.is_byte b6 -> Keccak.is_byte b7 ->
  Keccak.bytesToWord (map Fld [b0; b1; b2; b3; b4; b5; b6; b7])
  = Ok (b0 + 2 ^ 8 * b1 + 2 ^ 16 * b2 + 2 ^ 24 * b3
        + 2 ^ 32 * b4 + 2 ^ 40 * b5 + 2 ^ 48 * b6 + 2 ^ 56 * b7).
Proof.
  unfold Keccak.is_byte. intros H0 H1 H2 H3 H4 H5 H6 H7.
  assert (Hm : 2 ^ 64 < Field.modulus) by reflexivity.
  unfold Keccak.bytesToWord. cbn [map Keccak.reduce_idx as_field bind].
  change (Field.from 0) with 0.
  change (Z.shiftl 1 (8 * 0)) with 1.
  change (Z.shiftl 1 (8 * (0 + 1))) with (2 ^ 8).
  change (Z.shiftl 1 (8 * (0 + 1 + 1))) with (2 ^ 16).
  change (Z.shiftl 1 (8 * (0 + 1 + 1 + 1))) with (2 ^ 24).
  change (Z.shiftl 1 (8 * (0 + 1 + 1 + 1 + 1))) with (2 ^ 32).
  change (Z.shiftl 1 (8 * (0 + 1 + 1 + 1 + 1 + 1))) with (2 ^ 40).
  change (Z.shiftl 1 (8 * (0 + 1 + 1 + 1 + 1 + 1 + 1))) with (2 ^ 48).
  change (Z.shiftl 1 (8 * (0 + 1 + 1 + 1 + 1 + 1 + 1 + 1))) with (2 ^ 56).
  change (2 ^ 64) with 18446744073709551616 in Hm.
  change (2 ^ 8) with 256. change (2 ^ 16) with 65536.
  change (2 ^ 24) with 16777216. change (2 ^ 32) with 4294967296.
  change (2 ^ 40) with 1099511627776. change (2 ^ 48) with 281474976710656.
  change (2 ^ 56) with 72057594037927936.
  unfold Field.add, Field.mul.
  repeat match goal with
         | |- context [?a mod Field.modulus] =>
           rewrite (Z.mod_small a Field.modulus) by lia
         end.
  f_equal. lia.
Qed.

(** The [k]-th byte of a composed word is the [k]-th byte it was composed
    of. *)
Lemma word_byte (b0 b1 b2 b3 b4 b5 b6 b7 : Z) :
  Keccak.is_byte b0 -> Keccak.is_byte b1 -> Keccak.is_byte b2 -> Keccak.is_byte b3 ->
  Keccak.is_byte b4 -> Keccak.is_byte b5 -> Keccak.is_byte b6 -> Keccak.is_byte b7 ->
  let w := b0 + 2 ^ 8 * b1 + 2 ^ 16 * b2 + 2 ^ 24 * b3
           + 2 ^ 32 * b4 + 2 ^ 40 * b5 + 2 ^ 48 * b6 + 2 ^ 56 * b7 in
  map (fun k => Z.land (Z.shiftr w (8 * k)) 0xff) [0; 1; 2; 3; 4; 5; 6; 7]
  = [b0; b1; b2; b3; b4; b5; b6; b7].
Proof.
  intros H0 H1 H2 H3 H4 H5 H6 H7 w. unfold Keccak.is_byte in *.
  cbn [map]. change 255 with (Z.ones 8).
  rewrite !Z.land_ones, !Z.shiftr_div_pow2 by lia.
  change (2 ^ (8 * 0)) with 1. change (2 ^ (8 * 1)) with 256.
  change (2 ^ (8 * 2)) with 65536. change (2 ^ (8 * 3)) with 16777216.
  change (2 ^ (8 * 4)) with 4294967296. change (2 ^ (8 * 5)) with 1099511627776.
  change (2 ^ (8 * 6)) with 281474976710656.
  change (2 ^ (8 * 7)) with 72057594037927936.
  change (2 ^ 8) with 256 in *. subst w.
  change (2 ^ 16) with 65536. change (2 ^ 24) with 16777216.
  change (2 ^ 32) with 4294967296. change (2 ^ 40) with 1099511627776.
  change (2 ^ 48) with 281474976710656. change (2 ^ 56) with 72057594037927936.
  repeat (f_equal; [Z.div_mod_to_equations; lia |]).
  f_equal. Z.div_mod_to_equations. lia.
Qed.

(** The bytes witnessed for a composed word pass the range checks and the
    decomposition check. *)
Lemma wordToBytes_8 (b0 b1 b2 b3 b4 b5 b6 b7 : Z) :
  Keccak.is_byte b0 -> Keccak.is_byte b1 -> Keccak.is_byte b2 -> Keccak.is_byte b3 ->
  Keccak.is_byte b4 -> Keccak.is_byte b5 -> Keccak.is_byte b6 -> Keccak.is_byte b7 ->
  Keccak.wordToBytes
    (Fld (b0 + 2 ^ 8 * b1 + 2 ^ 16 * b2 + 2 ^ 24 * b3
          + 2 ^ 32 * b4 + 2 ^ 40 * b5 + 2 ^ 48 * b6 + 2 ^ 56 * b7))
  = Ok (map Fld [b0; b1; b2; b3; b4; b5; b6; b7]).
Proof.
  intros H0 H1 H2 H3 H4 H5 H6 H7. unfold Keccak.wordToBytes. cbn [as_field bind].
  change (range (Z.to_nat Keccak.BYTES_PER_WORD)) with [0; 1; 2; 3; 4; 5; 6; 7].
  rewrite <- (map_map (fun k => Z.land (Z.shiftr _ (8 * k)) 255) Field.from).
  rewrite (word_byte b0 b1 b2 b3 b4 b5 b6 b7 H0 H1 H2 H3 H4 H5 H6 H7).
  assert (Hm : 256 < Field.modulus) by reflexivity.
  unfold Keccak.is_byte in *.
  cbn [map]. rewrite !from_small by lia.
  assert (Hrc : forall x, 0 <= x < 256 -> Keccak.rangeCheck8 x = Ok tt).
  { intros x Hx. unfold Keccak.rangeCheck8.
    destruct (Z.ltb_spec x 256); [reflexivity | lia]. }
  cbn [mapM]. rewrite !Hrc by assumption. cbn [bind].
  change [Fld b0; Fld b1; Fld b2; Fld b3; Fld b4; Fld b5; Fld b6; Fld b7]
    with (map Fld [b0; b1; b2; b3; b4; b5; b6; b7]).
  rewrite bytesToWord_8 by assumption. cbn [bind].
  unfold Field.assertEquals. rewrite Z.eqb_refl. reflexivity.
Qed.

Lemma codec_roundtrip (n : nat) :
  forall bytes : list Z,
    length bytes = (8 * n)%nat -> Forall Keccak.is_byte bytes ->
    exists words,
      Keccak.bytesToWords (map Fld bytes) = Ok words
      /\ Keccak.wordsToBytes words = Ok (map Fld bytes).
Proof.
  induction n as [| n IH]; intros bytes Hlen Hb.
  - destruct bytes; [| cbn [length] in Hlen; lia]. exists []. split; reflexivity.
  - do 8 (destruct bytes as [| ? bytes]; [cbn [length] in Hlen; lia |]).
    repeat match goal with
           | H : Forall _ (_ :: _) |- _ => inversion H; subst; clear H
           end.
    destruct (IH bytes) as (words & Ew & Eb); [cbn [length] in Hlen; lia | assumption |].
    unfold Keccak.bytesToWords in Ew.
    destruct (Keccak.chunk (map Fld bytes) Keccak.BYTES_PER_WORD) as [chunks | |] eqn:Ec;
      try discriminate.
    cbn [bind] in Ew.
    unfold Keccak.wordsToBytes in Eb.
    destruct (mapM Keccak.wordToBytes words) as [bs | |] eqn:Em; try discriminate.
    cbn [bind] in Eb. injection Eb as Eb.
    eexists. split.
    + unfold Keccak.bytesToWords.
      change (map Fld (?a :: ?b :: ?c :: ?d :: ?e :: ?f :: ?g :: ?h :: bytes))
        with (map Fld [a; b; c; d; e; f; g; h] ++ map Fld bytes).
      rewrite (chunk_cons _ _ _ chunks) by (first [reflexivity | assumption]).
      cbn [bind mapM]. rewrite bytesToWord_8 by assumption. cbn [bind].
      rewrite Ew. cbn [bind]. reflexivity.
    + unfold Keccak.wordsToBytes. cbn [mapM].
      rewrite wordToBytes_8 by assumption. cbn [bind].
      rewrite Em. cbn [bind concat]. rewrite Eb. reflexivity.
Qed.

(** C7. For every array of bytes (field elements below 256) whose length is
    a multiple of 8, bytesToWords returns and wordsToBytes gives the bytes
    back. *)
Theorem wordsToBytes_bytesToWords (bytes : list Z) :
  Z.of_nat (length bytes) mod 8 = 0 -> Forall Keccak.is_byte bytes ->
  exists words,
    Keccak.bytesToWords (map Fld bytes) = Ok words
    /\ Keccak.wordsToBytes words = Ok (map Fld bytes).
Proof.
  intros Hlen Hb. apply Z.mod_divide in Hlen; [| lia]. destruct Hlen as [q Hq].
  apply (codec_roundtrip (Z.to_nat q)); [lia | assumption].
Qed.

Lemma wordsToBytes_bytesToWords_witness :
  exists words,
    Keccak.bytesToWords (map Fld [1; 2; 3; 4; 5; 6; 7; 255]) = Ok words
    /\ Keccak.wordsToBytes words = Ok (map Fld [1; 2; 3; 4; 5; 6; 7; 255]).
Proof.
  apply (wordsToBytes_bytesToWords [1; 2; 3; 4; 5; 6; 7; 255]); [reflexivity |].
  repeat constructor; unfold Keccak.is_byte; lia.
Defined.

(** ** The hash of the empty message *)


Lemma bind_out_of_fuel {A B : Type} (m : result A) (k : A -> result B) :
  m = OutOfFuel -> bind m k = OutOfFuel.
Proof. intros ->. reflexivity. Qed.

(** Evaluates the closed computation at the head of a sequence. *)
Ltac run_head :=
  match goal with
  | |- bind ?m ?k = _ =>
    let v := eval vm_compute in m in
    replace m with v by (vm_compute; reflexivity);
    cbn beta iota delta [bind]
  end.

(** With the XOR gadget of the source behind [Gadgets.xor], [ethereum([])]
    gets as far as the XOR of the zero state with the first block and there
    exhausts every budget: the lanes are 64 bits wide, and 64 is a multiple
    of 16. *)
Lemma ethereum_source_out_of_fuel (fuel : nat) :
  Keccak.ethereum (GadgetsImpl.source fuel) [] = OutOfFuel.
Proof.
  unfold Keccak.ethereum, Keccak.preNist, Keccak.hash.
  do 7 run_head.
  apply bind_out_of_fuel. unfold Keccak.sponge.
  run_head.
  apply bind_out_of_fuel. unfold Keccak.absorb.
  do 3 run_head.
  cbn [Keccak.absorb_loop].
  match goal with
  | |- context [if ?c then _ else _] => replace c with true by (vm_compute; reflexivity)
  end.
  run_head.
  apply bind_out_of_fuel.
  apply State_xor_source_out_of_fuel;
    first [reflexivity | split; [apply Z.leb_le | apply Z.ltb_lt]; reflexivity].
Qed.



(** * Further properties of the XOR gadget *)

(** X1. Off the multiples of [4 * len_xor], for field elements below
    2^length whose XOR is a field element, xor returns exactly the bitwise
    XOR, on any budget above the number of nibble groups. *)
Theorem xor_returns_exact_xor
        (fuel : nat) (a b length len_xor : Z) (gs : list Gates.gate) :
  0 < len_xor -> 4 * len_xor <= Field.sizeInBits -> 0 < length <= Field.sizeInBits ->
  Z.rem length (4 * len_xor) <> 0 ->
  0 <= a < 2 ^ length -> 0 <= b < 2 ^ length ->
  a < Field.modulus -> b < Field.modulus -> Z.lxor a b < Field.modulus ->
  (Z.to_nat (Gadget.padLength length len_xor / (4 * len_xor)) < fuel)%nat ->
  exists gates,
    Gadget.xor fuel a b length len_xor gs = Ok (Z.lxor a b, gs ++ gates).
Proof. unfold Field.sizeInBits. intros. apply xor_unaligned_exact; assumption. Qed.

Lemma xor_returns_exact_xor_witness :
  exists gates, Gadget.xor 2 12 10 4 4 [] = Ok (Z.lxor 12 10, [] ++ gates).
Proof.
  apply (xor_returns_exact_xor 2 12 10 4 4 []);
    unfold Field.sizeInBits;
    first [ lia | discriminate | reflexivity
          | split; [apply Z.leb_le | apply Z.ltb_lt]; reflexivity
          | apply Z.ltb_lt; reflexivity
          | apply Nat.ltb_lt; reflexivity ].
Defined.



(** X3. xor validates before it builds anything: a non-positive length or
    nibble width, a length above the bit width of the field, or an operand
    that does not fit in length bits makes the call throw, whatever the
    budget, with the message of the failed check. *)
Theorem xor_validation
        (fuel : nat) (a b length len_xor : Z) (gs : list Gates.gate) :
  (length <= 0 \/ len_xor <= 0 ->
   Gadget.xor fuel a b length len_xor gs
   = Throw (Error "Length ${length} exceeds maximum of ${Field.sizeInBits()} bits."))
  /\ (0 < length -> 0 < len_xor -> Field.sizeInBits < length ->
      Gadget.xor fuel a b length len_xor gs
      = Throw (Error "Length exceeds maximum field size in bits."))
  /\ (0 < length <= Field.sizeInBits -> 0 < len_xor ->
      2 ^ length <= a \/ 2 ^ length <= b ->
      Gadget.xor fuel a b length len_xor gs
      = Throw (Error "Word does not fit in bits")).
Proof.
  unfold Gadget.xor, cbind, lift, Gadget.xor_value. unfold Field.sizeInBits.
  split; [| split].
  - intros H.
    assert (E : (length >? 0) && (len_xor >? 0) = false).
    { destruct (Z.gtb_spec length 0), (Z.gtb_spec len_xor 0); try reflexivity; lia. }
    rewrite E. reflexivity.
  - intros Hl Hw H255.
    destruct (Z.gtb_spec length 0); [| lia].
    destruct (Z.gtb_spec len_xor 0); [| lia].
    destruct (Z.leb_spec length 255); [lia | reflexivity].
  - intros Hl Hw Hfit.
    destruct (Z.gtb_spec length 0); [| lia].
    destruct (Z.gtb_spec len_xor 0); [| lia].
    destruct (Z.leb_spec length 255); [| lia].
    cbn [andb assert bind]. unfold Gadget.fitsInBits.
    destruct (Z.ltb_spec length 0); [lia |].
    destruct (Z.ltb_spec a (2 ^ length)); [| reflexivity].
    destruct (Z.ltb_spec b (2 ^ length)); [lia | reflexivity].
Qed.

Lemma xor_validation_witness :
  Gadget.xor 0 1 1 0 4 []
  = Throw (Error "Length ${length} exceeds maximum of ${Field.sizeInBits()} bits.")
  /\ Gadget.xor 0 1 1 256 4 [] = Throw (Error "Length exceeds maximum field size in bits.")
  /\ Gadget.xor 0 16 1 4 4 [] = Throw (Error "Word does not fit in bits").
Proof.
  split; [| split].
  - apply (xor_validation 0 1 1 0 4 []). left. lia.
  - apply (xor_validation 0 1 1 256 4 []); [lia | lia | reflexivity].
  - apply (xor_validation 0 16 1 4 4 []); [split; [lia | discriminate] | lia |].
    left. discriminate.
Defined.

(** X4. Off the multiples of [4 * len_xor] the pad length that xor computes
    is a multiple of [4 * len_xor], at least [length] and less than
    [4 * len_xor] above it: the smallest such multiple. *)
Theorem padLength_least_multiple (length len_xor : Z) :
  0 < len_xor -> 0 < length -> Z.rem length (4 * len_xor) <> 0 ->
  (4 * len_xor | Gadget.padLength length len_xor)
  /\ length < Gadget.padLength length len_xor < length + 4 * len_xor.
Proof.
  intros Hw Hl Hr. rewrite padLength_unaligned by assumption.
  rewrite Z.rem_mod_nonneg in * by lia.
  pose proof (Z.mod_pos_bound length (4 * len_xor) ltac:(lia)) as Hb.
  pose proof (Z.div_mod length (4 * len_xor) ltac:(lia)) as Hd.
  split; [| lia].
  exists (length / (4 * len_xor) + 1). lia.
Qed.

Lemma padLength_least_multiple_witness :
  (4 * 4 | Gadget.padLength 20 4)
  /\ 20 < Gadget.padLength 20 4 < 20 + 4 * 4.
Proof. apply (padLength_least_multiple 20 4); [lia | lia | discriminate]. Defined.

(** The terminal step: one zero-check row, then the three operands are
    asserted to be the zero constant. *)
Lemma xorRec_terminal (fuel : nat) (in1 in2 out w : Z) (gs : list Gates.gate) :
  Gadget.xorRec (S fuel) in1 in2 out 0 w gs
  = if (in1 =? 0) && (in2 =? 0) && (out =? 0)
    then Ok (tt, gs ++ [Gates.ZeroCheck in1 in2 out])
    else Throw (Error "Field.assertEquals(): not equal").
Proof.
  cbn [Gadget.xorRec]. change (0 =? 0) with true. cbv beta iota.
  unfold cbind, lift, emit, Field.assertEquals. change (Field.from 0) with 0.
  rewrite !(Z.eqb_sym 0).
  destruct (in1 =? 0), (in2 =? 0), (out =? 0); reflexivity.
Qed.

Lemma xorRec_rejects (k : nat) :
  forall (fuel : nat) (in1 in2 out w : Z) (gs : list Gates.gate),
    0 < w -> 4 * w <= 255 -> (k < fuel)%nat ->
    0 <= in1 < Field.modulus -> 0 <= in2 < Field.modulus -> 0 <= out < Field.modulus ->
    2 ^ (4 * w * Z.of_nat k) <= in1 \/ 2 ^ (4 * w * Z.of_nat k) <= in2
    \/ 2 ^ (4 * w * Z.of_nat k) <= out ->
    Gadget.xorRec fuel in1 in2 out (4 * w * Z.of_nat k) w gs
    = Throw (Error "Field.assertEquals(): not equal").
Proof.
  induction k as [| k IH]; intros fuel in1 in2 out w gs Hw H4 Hfuel R1 R2 R3 Hbig;
    (destruct fuel as [| fuel]; [lia |]).
  - rewrite Z.mul_0_r in *. change (2 ^ 0) with 1 in Hbig.
    rewrite xorRec_terminal.
    destruct (Z.eqb_spec in1 0), (Z.eqb_spec in2 0), (Z.eqb_spec out 0);
      cbn [andb]; try reflexivity; lia.
  - assert (Hp : 4 * w * Z.of_nat (S k) <> 0) by lia.
    destruct (xorRec_step fuel in1 in2 out _ w gs Hw H4 Hp)
      as (n1 & n2 & n3 & g & E & _ & _ & N1 & N2 & N3).
    rewrite E, (N1 R1), (N2 R2), (N3 R3).
    replace (4 * w * Z.of_nat (S k) - 4 * w) with (4 * w * Z.of_nat k) by lia.
    assert (Hpos : 0 < 2 ^ (4 * w)) by (apply Z.pow_pos_nonneg; lia).
    assert (Hrange : forall x, 0 <= x < Field.modulus ->
                               0 <= x / 2 ^ (4 * w) < Field.modulus).
    { intros x Rx. split; [apply Z.div_pos; lia |].
      apply Z.le_lt_trans with x; [apply Z.div_le_upper_bound; nia | lia]. }
    assert (Hshift : forall x, 2 ^ (4 * w * Z.of_nat (S k)) <= x ->
                               2 ^ (4 * w * Z.of_nat k) <= x / 2 ^ (4 * w)).
    { intros x Bx. apply Z.div_le_lower_bound; [lia |].
      rewrite <- Z.pow_add_r by lia.
      replace (4 * w + 4 * w * Z.of_nat k) with (4 * w * Z.of_nat (S k)) by lia.
      assumption. }
    apply IH; try assumption; try lia; try (apply Hrange; assumption).
    destruct Hbig as [H | [H | H]]; [left | right; left | right; right];
      apply Hshift; assumption.
Qed.

(** X5. The chain of xorRec checks that the operands are consumed: started
    with a pad length of k groups on three field elements, it returns
    exactly when all three are below 2^padLength, and otherwise fails the
    equality with zero of its terminal step. *)
Theorem xorRec_accepts_iff
        (k fuel : nat) (in1 in2 out w : Z) (gs : list Gates.gate) :
  0 < w -> 4 * w <= Field.sizeInBits -> (k < fuel)%nat ->
  0 <= in1 < Field.modulus -> 0 <= in2 < Field.modulus -> 0 <= out < Field.modulus ->
  (returns (Gadget.xorRec fuel in1 in2 out (4 * w * Z.of_nat k) w gs)
   <-> in1 < 2 ^ (4 * w * Z.of_nat k) /\ in2 < 2 ^ (4 * w * Z.of_nat k)
       /\ out < 2 ^ (4 * w * Z.of_nat k))
  /\ (throws (Gadget.xorRec fuel in1 in2 out (4 * w * Z.of_nat k) w gs)
      <-> 2 ^ (4 * w * Z.of_nat k) <= in1 \/ 2 ^ (4 * w * Z.of_nat k) <= in2
          \/ 2 ^ (4 * w * Z.of_nat k) <= out).
Proof.
  unfold Field.sizeInBits. intros Hw H4 Hfuel R1 R2 R3.
  set (B := 2 ^ (4 * w * Z.of_nat k)).
  assert (Hcases : (in1 < B /\ in2 < B /\ out < B)
                   \/ (B <= in1 \/ B <= in2 \/ B <= out)) by lia.
  destruct Hcases as [Hfit | Hbig].
  - destruct (xorRec_chain k fuel in1 in2 out w gs) as (gates & E & _);
      try assumption; try (subst B; lia).
    fold B in E. rewrite E. unfold returns, throws.
    split; split; intros H; try assumption; try lia.
    + eexists; reflexivity.
    + destruct H as [e He]. discriminate.
  - pose proof (xorRec_rejects k fuel in1 in2 out w gs Hw H4 Hfuel R1 R2 R3 Hbig) as E.
    fold B in E. rewrite E. unfold returns, throws.
    split; split; intros H; try assumption; try lia.
    + destruct H as [r Hr]. discriminate.
    + eexists; reflexivity.
Qed.

Lemma xorRec_accepts_iff_witness :
  returns (Gadget.xorRec 3 300 7 299 (4 * 4 * Z.of_nat 1) 4 [])
  <-> 300 < 2 ^ (4 * 4 * Z.of_nat 1) /\ 7 < 2 ^ (4 * 4 * Z.of_nat 1)
      /\ 299 < 2 ^ (4 * 4 * Z.of_nat 1).
Proof.
  apply (xorRec_accepts_iff 1 3 300 7 299 4 []);
    unfold Field.sizeInBits;
    first [ lia | split; [apply Z.leb_le | apply Z.ltb_lt]; reflexivity ].
Defined.



(** X7. asProverNextVar, given a field element and its four low nibbles,
    returns the element shifted down by four nibbles: the subtraction and
    the division in the field are the integer ones. *)
Theorem asProverNextVar_shifts (f len_xor : Z) :
  0 < len_xor -> 4 * len_xor <= Field.sizeInBits -> 0 <= f < Field.modulus ->
  Gadget.asProverNextVar f
    ((f / 2 ^ (0 * len_xor)) mod 2 ^ len_xor)
    ((f / 2 ^ (1 * len_xor)) mod 2 ^ len_xor)
    ((f / 2 ^ (2 * len_xor)) mod 2 ^ len_xor)
    ((f / 2 ^ (3 * len_xor)) mod 2 ^ len_xor)
    len_xor
  = Ok (Z.shiftr f (4 * len_xor)).
Proof.
  unfold Field.sizeInBits. intros Hw H4 Hf.
  rewrite Z.shiftr_div_pow2 by lia.
  apply (asProverNextVar_shift f len_xor Hw H4 Hf).
Qed.

Lemma asProverNextVar_shifts_witness :
  Gadget.asProverNextVar 0x12345
    ((0x12345 / 2 ^ (0 * 4)) mod 2 ^ 4) ((0x12345 / 2 ^ (1 * 4)) mod 2 ^ 4)
    ((0x12345 / 2 ^ (2 * 4)) mod 2 ^ 4) ((0x12345 / 2 ^ (3 * 4)) mod 2 ^ 4) 4
  = Ok (Z.shiftr 0x12345 (4 * 4)).
Proof.
  apply (asProverNextVar_shifts 0x12345 4); unfold Field.sizeInBits;
    first [ lia | split; [apply Z.leb_le | apply Z.ltb_lt]; reflexivity ].
Defined.

(** X8. Off the multiples of [4 * len_xor] and up to 254 bits, xor with zero
    gives the operand back, and xor-ing the result of a xor with the second
    operand again gives the first operand back. *)
Theorem xor_zero_and_involution
        (fuel : nat) (a b length len_xor : Z) (gs : list Gates.gate) :
  0 < len_xor -> 4 * len_xor <= Field.sizeInBits -> 0 < length <= 254 ->
  Z.rem length (4 * len_xor) <> 0 ->
  0 <= a < 2 ^ length -> 0 <= b < 2 ^ length ->
  (Z.to_nat (Gadget.padLength length len_xor / (4 * len_xor)) < fuel)%nat ->
  (exists gates, Gadget.xor fuel a 0 length len_xor gs = Ok (a, gs ++ gates))
  /\ (exists c gates1 gates2,
         Gadget.xor fuel a b length len_xor gs = Ok (c, gs ++ gates1)
         /\ Gadget.xor fuel c b length len_xor (gs ++ gates1)
            = Ok (a, (gs ++ gates1) ++ gates2)).
Proof.
  unfold Field.sizeInBits. intros Hw H4 Hl Hr Ha Hb Hfuel.
  pose proof (pow2_lt_modulus length ltac:(lia)) as Hp.
  assert (H0 : 0 <= 0 < 2 ^ length) by lia.
  pose proof (lxor_lt_pow2 a b length ltac:(lia) Ha Hb) as Hc.
  split.
  - destruct (xor_unaligned_exact fuel a 0 length len_xor gs) as (gates & E);
      try assumption; try lia.
    { rewrite Z.lxor_0_r. lia. }
    exists gates. rewrite E, Z.lxor_0_r. reflexivity.
  - destruct (xor_unaligned_exact fuel a b length len_xor gs) as (g1 & E1);
      try assumption; try lia.
    destruct (xor_unaligned_exact fuel (Z.lxor a b) b length len_xor (gs ++ g1))
      as (g2 & E2); try assumption; try lia.
    { rewrite Z.lxor_assoc, Z.lxor_nilpotent, Z.lxor_0_r. lia. }
    exists (Z.lxor a b), g1, g2. split; [assumption |].
    rewrite E2, Z.lxor_assoc, Z.lxor_nilpotent, Z.lxor_0_r. reflexivity.
Qed.

Lemma xor_zero_and_involution_witness :
  (exists gates, Gadget.xor 2 12 0 4 4 [] = Ok (12, [] ++ gates))
  /\ (exists c gates1 gates2,
         Gadget.xor 2 12 10 4 4 [] = Ok (c, [] ++ gates1)
         /\ Gadget.xor 2 c 10 4 4 ([] ++ gates1) = Ok (12, ([] ++ gates1) ++ gates2)).
Proof.
  apply (xor_zero_and_involution 2 12 10 4 4 []);
    unfold Field.sizeInBits;
    first [ lia | discriminate
          | split; [apply Z.leb_le | apply Z.ltb_lt]; reflexivity
          | apply Nat.ltb_lt; reflexivity ].
Defined.

(** * Further properties of the Keccak gadget *)

(** ** The gadgets on words *)

Lemma land_word (a b : Z) : Lanes.is_word a -> Lanes.is_word b -> Lanes.is_word (Z.land a b).
Proof.
  unfold Lanes.is_word. intros Ha Hb.
  split; [apply Z.land_nonneg; lia |].
  rewrite <- (Z.mod_small a (2 ^ 64)) by lia.
  rewrite <- Z.land_ones by lia.
  rewrite <- Z.land_assoc, (Z.land_comm (Z.ones 64)), Z.land_assoc, Z.land_ones by lia.
  apply Z.mod_pos_bound. reflexivity.
Qed.

Lemma rotate_word_bound (a bits : Z) :
  Lanes.is_word a -> 0 <= bits <= 64 ->
  Lanes.is_word ((a * 2 ^ bits) mod 2 ^ 64 + a / 2 ^ (64 - bits)).
Proof.
  unfold Lanes.is_word. intros Ha Hb.
  set (P := 2 ^ bits). set (Q := 2 ^ (64 - bits)).
  assert (HP : 0 < P) by (apply Z.pow_pos_nonneg; lia).
  assert (HQ : 0 < Q) by (apply Z.pow_pos_nonneg; lia).
  assert (HPQ : 2 ^ 64 = Q * P).
  { subst P Q. rewrite <- Z.pow_add_r by lia. f_equal. lia. }
  rewrite HPQ in *.
  pose proof (Z.div_mod a Q ltac:(lia)) as Hd.
  pose proof (Z.mod_pos_bound a Q HQ) as Hm.
  assert (Hhi : 0 <= a / Q < P).
  { split; [apply Z.div_pos; lia | apply Z.div_lt_upper_bound; lia]. }
  assert (E : (a * P) mod (Q * P) = (a mod Q) * P).
  { rewrite Z.mul_mod_distr_r by lia. reflexivity. }
  rewrite E. nia.
Qed.

(** The gadgets that return the witnessed XOR conform. *)
Lemma contract_conforming : Lanes.conforming GadgetsImpl.contract.
Proof.
  assert (Hm : 2 ^ 64 < Field.modulus) by reflexivity.
  constructor; cbn [g_xor g_and g_not g_rotate GadgetsImpl.contract].
  - intros a b Ha Hb. unfold Lanes.is_word in *.
    pose proof (lxor_lt_pow2 a b 64 ltac:(lia) Ha Hb) as Hx.
    exists (Z.lxor a b). split; [| assumption].
    apply xor_value_exact; lia.
  - intros a b Ha Hb. exists (Z.land a b). split; [reflexivity |].
    apply land_word; assumption.
  - intros a Ha. unfold Lanes.is_word in *.
    exists (Z.ones 64 - a). unfold GadgetsImpl.not. cbn [negb orb assert bind].
    change (Z.ones 64) with (2 ^ 64 - 1).
    split; [| lia]. f_equal. unfold Field.sub. apply Z.mod_small. lia.
  - intros a bits Ha Hb. eexists. split; [reflexivity |].
    apply rotate_word_bound; [assumption | lia].
Qed.

(** ** Loops that keep an invariant *)

Lemma mapM_returns {A B : Type} (P : A -> Prop) (Q : B -> Prop)
      (f : A -> result B) (l : list A) :
  Forall P l ->
  (forall x, P x -> exists y, f x = Ok y /\ Q y) ->
  exists ys, mapM f l = Ok ys /\ Forall Q ys /\ List.length ys = List.length l.
Proof.
  intros Hl Hf. induction Hl as [| x l Hx Hl IH].
  - exists []. repeat split. constructor.
  - destruct (Hf x Hx) as (y & Ey & Qy). destruct IH as (ys & Eys & Qys & Lys).
    exists (y :: ys). cbn [mapM]. rewrite Ey. cbn [bind]. rewrite Eys. cbn [bind].
    repeat split; [constructor; assumption | cbn [List.length]; lia].
Qed.

Lemma forM_returns {S : Type} (Inv : S -> Prop) (P : Z -> Prop)
      (body : Z -> S -> result S) (idx : list Z) (s : S) :
  Forall P idx -> Inv s ->
  (forall i s, P i -> Inv s -> exists s', body i s = Ok s' /\ Inv s') ->
  exists s', forM idx body s = Ok s' /\ Inv s'.
Proof.
  intros Hidx. revert s. induction Hidx as [| i idx Hi Hidx IH]; intros s Hs Hb.
  - exists s. split; [reflexivity | assumption].
  - destruct (Hb i s Hi Hs) as (s1 & E1 & I1).
    destruct (IH s1 I1 Hb) as (s2 & E2 & I2).
    exists s2. cbn [forM]. rewrite E1. cbn [bind]. split; assumption.
Qed.

Lemma reduce_idx_returns {A B : Type} (P : A -> Prop) (Inv : B -> Prop)
      (f : B -> A -> Z -> result B) (l : list A) :
  Forall P l ->
  (forall acc x i, Inv acc -> P x -> exists acc', f acc x i = Ok acc' /\ Inv acc') ->
  forall idx acc, Inv acc ->
                  exists r, Keccak.reduce_idx f l idx acc = Ok r /\ Inv r.
Proof.
  intros Hl Hf. induction Hl as [| x l Hx Hl IH]; intros idx acc Hacc.
  - exists acc. split; [reflexivity | assumption].
  - destruct (Hf acc x idx Hacc Hx) as (a1 & E1 & I1).
    destruct (IH (idx + 1) a1 I1) as (r & E2 & I2).
    exists r. cbn [Keccak.reduce_idx]. rewrite E1. cbn [bind]. split; assumption.
Qed.

Lemma dim_range : Forall (fun i => 0 <= i < 5) Keccak.dim.
Proof. repeat constructor; lia. Qed.

Lemma range_bound (n : nat) : Forall (fun i => 0 <= i < Z.of_nat n) (range n).
Proof.
  unfold range. apply Forall_forall. intros i Hi.
  apply in_map_iff in Hi. destruct Hi as (k & <- & Hk).
  apply in_seq in Hk. lia.
Qed.

(** The rows of a matrix together with their indices. *)
Lemma indexed_rows {A : Type} (P : A -> Prop) (l : list A) :
  Forall P l ->
  Forall (fun p => 0 <= fst p < Z.of_nat (List.length l) /\ P (snd p))
         (combine (range (List.length l)) l).
Proof.
  intros Hl. apply Forall_forall. intros [i x] Hin. cbn [fst snd].
  split.
  - apply in_combine_l in Hin.
    pose proof (range_bound (List.length l)) as Hr.
    rewrite Forall_forall in Hr. apply (Hr i Hin).
  - apply in_combine_r in Hin. rewrite Forall_forall in Hl. apply Hl. assumption.
Qed.

Lemma js_get_Forall {A : Type} (P : A -> Prop) (undef : A) (l : list A) (i : Z) :
  Forall P l -> 0 <= i < Z.of_nat (List.length l) -> P (js_get undef l i).
Proof.
  intros Hl Hi. unfold js_get. destruct (Z.ltb_spec i 0) as [? | _]; [lia |].
  rewrite Forall_forall in Hl. apply Hl. apply nth_In. lia.
Qed.

Lemma cell_get_lanes (state : list array) (i j : Z) :
  Lanes.lanes state -> 0 <= i < 5 -> 0 <= j < 5 ->
  exists x, cell_get state i j = Ok (Fld x) /\ Lanes.is_word x.
Proof.
  intros [Hlen Hrows] Hi Hj. unfold cell_get, row_get, array in *.
  rewrite Hlen.
  destruct (Z.leb_spec 0 i) as [_ | ?]; [| lia].
  destruct (Z.ltb_spec i (Z.of_nat 5)) as [_ | ?]; [| lia].
  cbn [andb bind].
  assert (Hrow : List.length (nth (Z.to_nat i) state []) = 5%nat
                 /\ Forall Lanes.word_slot (nth (Z.to_nat i) state [])).
  { rewrite Forall_forall in Hrows. apply Hrows. apply nth_In. lia. }
  destruct Hrow as [Lrow Frow].
  assert (Hslot : Lanes.word_slot (js_get Undefined (nth (Z.to_nat i) state []) j))
    by (apply js_get_Forall; [assumption | lia]).
  destruct Hslot as (x & -> & Hx). exists x. split; [reflexivity | assumption].
Qed.

Lemma set_nth_length {A : Type} (undef v : A) (n : nat) (l : list A) :
  (n < List.length l)%nat -> List.length (set_nth undef n v l) = List.length l.
Proof.
  revert l. induction n as [| n IH]; intros [| x l] H; cbn [List.length] in *;
    try lia; cbn [set_nth List.length]; [reflexivity |].
  rewrite IH by lia. reflexivity.
Qed.

Lemma set_nth_Forall {A : Type} (P : A -> Prop) (undef v : A) (n : nat) (l : list A) :
  (n < List.length l)%nat -> Forall P l -> P v -> Forall P (set_nth undef n v l).
Proof.
  revert l. induction n as [| n IH]; intros [| x l] H Hl Hv; cbn [List.length] in *;
    try lia; cbn [set_nth]; inversion Hl; subst.
  - constructor; assumption.
  - constructor; [assumption |]. apply IH; [lia | assumption | assumption].
Qed.

Lemma cell_set_lanes (state : list array) (i j x : Z) :
  Lanes.lanes state -> 0 <= i < 5 -> 0 <= j < 5 -> Lanes.is_word x ->
  exists state', cell_set state i j (Fld x) = Ok state' /\ Lanes.lanes state'.
Proof.
  intros [Hlen Hrows] Hi Hj Hx. unfold cell_set, row_get, array in *.
  rewrite Hlen.
  destruct (Z.leb_spec 0 i) as [_ | ?]; [| lia].
  destruct (Z.ltb_spec i (Z.of_nat 5)) as [_ | ?]; [| lia].
  cbn [andb bind]. eexists. split; [reflexivity |].
  assert (Hrow : List.length (nth (Z.to_nat i) state []) = 5%nat
                 /\ Forall Lanes.word_slot (nth (Z.to_nat i) state [])).
  { rewrite Forall_forall in Hrows. apply Hrows. apply nth_In. lia. }
  destruct Hrow as [Lrow Frow].
  unfold Lanes.lanes, array. split.
  - rewrite set_nth_length by lia. assumption.
  - apply set_nth_Forall; [lia | assumption |].
    unfold js_set. destruct (Z.ltb_spec j 0) as [? | _]; [lia |].
    split.
    + rewrite set_nth_length by lia. assumption.
    + apply set_nth_Forall; [lia | assumption |].
      exists x. split; [reflexivity | assumption].
Qed.

Lemma zeros_lanes : Lanes.lanes Keccak.State.zeros.
Proof.
  split; [reflexivity |].
  repeat constructor; exists 0; (split; [reflexivity | unfold Lanes.is_word; lia]).
Qed.

Lemma rot_table_range (i j : Z) :
  0 <= i < 5 -> 0 <= j < 5 ->
  0 <= js_get 0 (js_get [] Keccak.ROT_TABLE i) j < 64.
Proof.
  intros Hi Hj.
  assert (Ei : i = 0 \/ i = 1 \/ i = 2 \/ i = 3 \/ i = 4) by lia.
  assert (Ej : j = 0 \/ j = 1 \/ j = 2 \/ j = 3 \/ j = 4) by lia.
  clear Hi Hj.
  repeat (destruct Ei as [-> | Ei]); try subst i;
    repeat (destruct Ej as [-> | Ej]); try subst j; vm_compute; split; congruence.
Qed.

Lemma round_constants_words : Forall Lanes.is_word Keccak.ROUND_CONSTANTS.
Proof.
  unfold Lanes.is_word.
  repeat constructor; first [ apply Z.leb_le | apply Z.ltb_lt ]; reflexivity.
Qed.

Lemma length_indexed {A : Type} (l : list A) :
  List.length (combine (range (List.length l)) l) = List.length l.
Proof.
  rewrite length_combine. unfold range. rewrite length_map, length_seq. lia.
Qed.

Section Conforming.

Variable G : Gadgets.
Hypothesis HG : Lanes.conforming G.

Lemma State_xor_lanes (a b : list array) :
  Lanes.lanes a -> Lanes.lanes b ->
  exists c, Keccak.State.xor G a b = Ok c /\ Lanes.lanes c.
Proof.
  intros Ha Hb. pose proof Ha as [La Ra]. pose proof Hb as [Lb Rb].
  unfold array in *. unfold Keccak.State.xor, Keccak.KECCAK_DIM, array.
  assert (La0 : List.length (nth 0 a []) = 5%nat).
  { rewrite Forall_forall in Ra. apply Ra. apply nth_In. lia. }
  assert (Lb0 : List.length (nth 0 b []) = 5%nat).
  { rewrite Forall_forall in Rb. apply Rb. apply nth_In. lia. }
  assert (Ca : (Z.of_nat (List.length a) =? 5)
               && (Z.of_nat (List.length (nth 0 a [])) =? 5) = true)
    by (rewrite La, La0; reflexivity).
  assert (Cb : (Z.of_nat (List.length b) =? 5)
               && (Z.of_nat (List.length (nth 0 b [])) =? 5) = true)
    by (rewrite Lb, Lb0; reflexivity).
  rewrite Ca, Cb. cbn [assert bind].
  destruct (mapM_returns
              (fun p => 0 <= fst p < Z.of_nat (List.length a) /\ Lanes.word_row (snd p)) Lanes.word_row
              (fun '(i, row) =>
                 mapM (fun '(j, value) =>
                         (y <- cell_get b i j ;;
                          x <- as_field value ;;
                          y <- as_field y ;;
                          out <- g_xor G x y 64 ;;
                          Ok (Fld out))%result)
                      (combine (range (List.length row)) row))
              (combine (range (List.length a)) a))
    as (c & Ec & Fc & Lc).
  - apply indexed_rows. assumption.
  - intros [i row] [Hi [Lrow Frow]]. cbn [fst snd] in *.
    destruct (mapM_returns
                (fun p => 0 <= fst p < Z.of_nat (List.length row)
                          /\ Lanes.word_slot (snd p))
                Lanes.word_slot
                (fun '(j, value) =>
                   (y <- cell_get b i j ;;
                    x <- as_field value ;;
                    y <- as_field y ;;
                    out <- g_xor G x y 64 ;;
                    Ok (Fld out))%result)
                (combine (range (List.length row)) row))
      as (ys & Eys & Fys & Lys).
    + apply indexed_rows. assumption.
    + intros [j v] [Hj Hv]. cbn [fst snd] in *. destruct Hv as (x & -> & Hx).
      destruct (cell_get_lanes b i j Hb ltac:(lia) ltac:(lia)) as (y & Ey & Hy).
      rewrite Ey. cbn [bind as_field].
      destruct (Lanes.xor_word G HG x y Hx Hy) as (out & Eo & Ho).
      rewrite Eo. cbn [bind]. eexists. split; [reflexivity |].
      exists out. split; [reflexivity | assumption].
    + exists ys. split; [assumption |]. split; [| assumption].
      rewrite Lys, length_indexed. assumption.
  - exists c. split; [assumption |]. unfold Lanes.lanes, array. split; [| assumption].
    rewrite Lc, length_indexed. assumption.
Qed.

Lemma reduce1_row (row : list value) :
  Lanes.word_row row ->
  exists y, Keccak.reduce1 (fun acc value => g_xor G acc value Keccak.KECCAK_WORD) row = Ok y
            /\ Lanes.word_slot y.
Proof.
  intros [Lrow Frow]. change Keccak.KECCAK_WORD with 64.
  destruct row as [| v0 [| v1 rest]]; try discriminate.
  inversion Frow as [| ? ? (x0 & -> & Hx0) Frest]; subst.
  cbn [Keccak.reduce1 as_field bind].
  destruct (reduce_idx_returns Lanes.word_slot Lanes.is_word
              (fun acc value (_ : Z) =>
                 (v <- as_field value ;; g_xor G acc v 64)%result)
              (v1 :: rest) Frest) with (idx := 1) (acc := x0) as (r & Er & Hr).
  - intros acc v i Hacc (x & -> & Hx). cbn [as_field bind].
    apply (Lanes.xor_word G HG); assumption.
  - assumption.
  - rewrite Er. cbn [bind]. eexists. split; [reflexivity |].
    exists r. split; [reflexivity | assumption].
Qed.

Lemma theta_lanes (state : list array) :
  Lanes.lanes state ->
  exists state', Keccak.theta G state = Ok state' /\ Lanes.lanes state'.
Proof.
  intros Hs. pose proof Hs as [Ls Rs]. unfold array in *.
  unfold Keccak.theta. cbv zeta. unfold array.
  destruct (mapM_returns Lanes.word_row Lanes.word_slot
              (Keccak.reduce1 (fun acc value => g_xor G acc value Keccak.KECCAK_WORD))
              state Rs reduce1_row) as (stateC & EC & FC & LC).
  rewrite EC. cbn [bind]. rewrite Ls in LC.
  change Keccak.KECCAK_WORD with 64. change Keccak.KECCAK_DIM with 5.
  destruct (mapM_returns (fun i => 0 <= i < 5) Lanes.word_slot
              (fun x =>
                 (c1 <- as_field (js_get Undefined stateC ((x + 1) mod 5)) ;;
                  r <- g_rotate G c1 1 Left ;;
                  c0 <- as_field (js_get Undefined stateC ((x + 5 - 1) mod 5)) ;;
                  d <- g_xor G c0 r 64 ;;
                  Ok (Fld d))%result)
              Keccak.dim dim_range) as (stateD & ED & FD & LD).
  { intros x Hx.
    assert (H1 : Lanes.word_slot (js_get Undefined stateC ((x + 1) mod 5))).
    { apply js_get_Forall; [assumption |]. rewrite LC.
      apply Z.mod_pos_bound. lia. }
    assert (H0 : Lanes.word_slot (js_get Undefined stateC ((x + 5 - 1) mod 5))).
    { apply js_get_Forall; [assumption |]. rewrite LC.
      apply Z.mod_pos_bound. lia. }
    destruct H1 as (c1 & -> & Hc1). destruct H0 as (c0 & -> & Hc0).
    cbn [as_field bind].
    destruct (Lanes.rotate_word G HG c1 1 Hc1 ltac:(lia)) as (r & Er & Hr).
    rewrite Er. cbn [bind].
    destruct (Lanes.xor_word G HG c0 r Hc0 Hr) as (d & Ed & Hd).
    rewrite Ed. cbn [bind]. eexists. split; [reflexivity |].
    exists d. split; [reflexivity | assumption]. }
  rewrite ED. cbn [bind]. change (List.length Keccak.dim) with 5%nat in LD.
  destruct (mapM_returns
              (fun p => 0 <= fst p < Z.of_nat (List.length state) /\ Lanes.word_row (snd p))
              Lanes.word_row
              (fun '(index, row) =>
                 mapM (fun elem =>
                         (e <- as_field elem ;;
                          d <- as_field (js_get Undefined stateD index) ;;
                          out <- g_xor G e d 64 ;;
                          Ok (Fld out))%result)
                      row)
              (combine (range (List.length state)) state))
    as (stateE & EE & FE & LE).
  - apply indexed_rows. assumption.
  - intros [index row] [Hi [Lrow Frow]]. cbn [fst snd] in *.
    assert (Hd : Lanes.word_slot (js_get Undefined stateD index))
      by (apply js_get_Forall; [assumption | lia]).
    destruct Hd as (d & Ed & Hd). rewrite Ed.
    destruct (mapM_returns Lanes.word_slot Lanes.word_slot
                (fun elem =>
                   (e <- as_field elem ;;
                    d <- as_field (Fld d) ;;
                    out <- g_xor G e d 64 ;;
                    Ok (Fld out))%result)
                row Frow) as (ys & Eys & Fys & Lys).
    + intros v (e & -> & He). cbn [as_field bind].
      destruct (Lanes.xor_word G HG e d He Hd) as (out & Eo & Ho).
      rewrite Eo. cbn [bind]. eexists. split; [reflexivity |].
      exists out. split; [reflexivity | assumption].
    + exists ys. split; [assumption |]. split; [lia | assumption].
  - exists stateE. split; [assumption |]. unfold Lanes.lanes, array.
    split; [| assumption].
    rewrite LE, length_indexed. assumption.
Qed.

Lemma piRho_lanes (state : list array) :
  Lanes.lanes state ->
  exists state', Keccak.piRho G state = Ok state' /\ Lanes.lanes state'.
Proof.
  intros Hs. unfold Keccak.piRho. cbv zeta.
  apply (forM_returns Lanes.lanes (fun i => 0 <= i < 5));
    [apply dim_range | apply zeros_lanes |].
  intros i stateB Hi HB.
  apply (forM_returns Lanes.lanes (fun j => 0 <= j < 5));
    [apply dim_range | assumption |].
  intros j stB Hj HstB.
  destruct (cell_get_lanes state i j Hs Hi Hj) as (e & Ee & He).
  rewrite Ee. cbn [bind as_field].
  destruct (Lanes.rotate_word G HG e (js_get 0 (js_get [] Keccak.ROT_TABLE i) j) He
                        (rot_table_range i j Hi Hj)) as (r & Er & Hr).
  rewrite Er. cbn [bind].
  apply cell_set_lanes; try assumption.
  change Keccak.KECCAK_DIM with 5. apply Z.mod_pos_bound. lia.
Qed.

Lemma chi_lanes (state : list array) :
  Lanes.lanes state ->
  exists state', Keccak.chi G state = Ok state' /\ Lanes.lanes state'.
Proof.
  intros Hs. unfold Keccak.chi. cbv zeta.
  change Keccak.KECCAK_WORD with 64. change Keccak.KECCAK_DIM with 5.
  apply (forM_returns Lanes.lanes (fun i => 0 <= i < 5));
    [apply dim_range | apply zeros_lanes |].
  intros i stateF Hi HF.
  apply (forM_returns Lanes.lanes (fun j => 0 <= j < 5));
    [apply dim_range | assumption |].
  intros j stF Hj HstF.
  destruct (cell_get_lanes state i j Hs Hi Hj) as (b0 & E0 & H0).
  destruct (cell_get_lanes state ((i + 1) mod 5) j Hs
              ltac:(apply Z.mod_pos_bound; lia) Hj) as (b1 & E1 & H1).
  destruct (cell_get_lanes state ((i + 2) mod 5) j Hs
              ltac:(apply Z.mod_pos_bound; lia) Hj) as (b2 & E2 & H2).
  rewrite E0, E1. cbn [bind as_field].
  destruct (Lanes.not_word G HG b1 H1) as (n & En & Hn). rewrite En. cbn [bind].
  rewrite E2. cbn [bind as_field].
  destruct (Lanes.and_word G HG n b2 Hn H2) as (a & Ea & Ha). rewrite Ea. cbn [bind].
  destruct (Lanes.xor_word G HG b0 a H0 Ha) as (out & Eo & Ho). rewrite Eo. cbn [bind].
  apply cell_set_lanes; assumption.
Qed.

Lemma iota_lanes (state : list array) (rc : Z) :
  Lanes.lanes state -> Lanes.is_word rc ->
  exists state', Keccak.iota G state rc = Ok state' /\ Lanes.lanes state'.
Proof.
  intros Hs Hrc. unfold Keccak.iota. cbv zeta. change Keccak.KECCAK_WORD with 64.
  destruct (cell_get_lanes state 0 0 Hs ltac:(lia) ltac:(lia)) as (x & Ex & Hx).
  rewrite Ex. cbn [bind as_field].
  assert (Hf : Field.from rc = rc).
  { apply from_small. unfold Lanes.is_word in Hrc.
    assert (2 ^ 64 < Field.modulus) by reflexivity. lia. }
  rewrite Hf.
  destruct (Lanes.xor_word G HG x rc Hx Hrc) as (out & Eo & Ho). rewrite Eo. cbn [bind].
  apply cell_set_lanes; try assumption; lia.
Qed.

Lemma round_lanes (state : list array) (rc : Z) :
  Lanes.lanes state -> Lanes.is_word rc ->
  exists state', Keccak.round G state rc = Ok state' /\ Lanes.lanes state'.
Proof.
  intros Hs Hrc. unfold Keccak.round. cbv zeta.
  destruct (theta_lanes state Hs) as (stE & EE & HE). rewrite EE. cbn [bind].
  destruct (piRho_lanes stE HE) as (stB & EB & HB). rewrite EB. cbn [bind].
  destruct (chi_lanes stB HB) as (stF & EF & HF). rewrite EF. cbn [bind].
  destruct (iota_lanes stF rc HF Hrc) as (stD & ED & HD). rewrite ED. cbn [bind].
  exists stD. split; [reflexivity | assumption].
Qed.

Lemma permutation_lanes (state : list array) (rc : list Z) :
  Lanes.lanes state -> Forall Lanes.is_word rc ->
  exists state', Keccak.permutation G state rc = Ok state' /\ Lanes.lanes state'.
Proof.
  intros Hs Hrc. unfold Keccak.permutation.
  apply (reduce_idx_returns Lanes.is_word Lanes.lanes); try assumption.
  intros acc x _ Hacc Hx. apply round_lanes; assumption.
Qed.

End Conforming.

(** ** Words in and out of the state *)

Lemma Forall_firstn {A : Type} (P : A -> Prop) (n : nat) (l : list A) :
  Forall P l -> Forall P (firstn n l).
Proof.
  intros H. rewrite <- (firstn_skipn n l) in H.
  apply Forall_app in H. apply H.
Qed.

Lemma Forall_skipn {A : Type} (P : A -> Prop) (n : nat) (l : list A) :
  Forall P l -> Forall P (skipn n l).
Proof.
  intros H. rewrite <- (firstn_skipn n l) in H.
  apply Forall_app in H. apply H.
Qed.

Lemma Forall_js_slice {A : Type} (P : A -> Prop) (l : list A) (start stop : Z) :
  Forall P l -> Forall P (js_slice l start stop).
Proof.
  intros H. unfold js_slice. apply Forall_firstn, Forall_skipn, H.
Qed.

Lemma length_js_slice {A : Type} (l : list A) (start stop : Z) :
  0 <= start <= stop -> stop <= Z.of_nat (List.length l) ->
  Z.of_nat (List.length (js_slice l start stop)) = stop - start.
Proof.
  intros H1 H2. rewrite js_slice_nonneg by lia.
  rewrite length_firstn, length_skipn. lia.
Qed.

Lemma lanes_is_5x5 (state : list array) :
  Lanes.lanes state -> Keccak.is_5x5 state = true.
Proof.
  intros [L R]. unfold Keccak.is_5x5, array in *. rewrite L. cbn [Nat.eqb andb].
  apply forallb_forall. intros row Hrow.
  rewrite Forall_forall in R. destruct (R row Hrow) as [Lr _].
  rewrite Lr. reflexivity.
Qed.

Lemma toWords_lanes (state : list array) :
  Lanes.lanes state ->
  exists words,
    Keccak.State.toWords state = Ok words
    /\ List.length words = 25%nat /\ Forall Lanes.word_slot words.
Proof.
  intros Hs. pose proof (lanes_is_5x5 state Hs) as H5.
  apply is_5x5_inv in H5.
  repeat match goal with H : exists _, _ |- _ => destruct H end. subst.
  rewrite toWords_5x5. eexists. split; [reflexivity |]. split; [reflexivity |].
  destruct Hs as [_ R].
  repeat match goal with
         | H : Forall _ (_ :: _) |- _ => inversion H; subst; clear H
         | H : _ /\ _ |- _ => destruct H
         end.
  repeat constructor; assumption.
Qed.

Lemma fromWords_lanes (words : array) :
  List.length words = 25%nat -> Forall Lanes.word_slot words ->
  exists state, Keccak.State.fromWords words = Ok state /\ Lanes.lanes state.
Proof.
  intros L F. unfold Keccak.State.fromWords. change Keccak.KECCAK_DIM with 5.
  apply (forM_returns Lanes.lanes (fun j => 0 <= j < 5));
    [apply dim_range | apply zeros_lanes |].
  intros j st Hj Hst.
  apply (forM_returns Lanes.lanes (fun i => 0 <= i < 5));
    [apply dim_range | assumption |].
  intros i st' Hi Hst'.
  assert (Hslot : Lanes.word_slot (js_get Undefined words (5 * j + i)))
    by (apply js_get_Forall; [assumption | lia]).
  destruct Hslot as (x & -> & Hx).
  apply cell_set_lanes; assumption.
Qed.

(** ** The codec on words *)

Lemma word_bytes_sum (w : Z) :
  Lanes.is_word w ->
  w = (w / 2 ^ (8 * 0)) mod 256 + 2 ^ 8 * ((w / 2 ^ (8 * 1)) mod 256)
      + 2 ^ 16 * ((w / 2 ^ (8 * 2)) mod 256) + 2 ^ 24 * ((w / 2 ^ (8 * 3)) mod 256)
      + 2 ^ 32 * ((w / 2 ^ (8 * 4)) mod 256) + 2 ^ 40 * ((w / 2 ^ (8 * 5)) mod 256)
      + 2 ^ 48 * ((w / 2 ^ (8 * 6)) mod 256) + 2 ^ 56 * ((w / 2 ^ (8 * 7)) mod 256).
Proof.
  unfold Lanes.is_word. intros Hw.
  change (2 ^ (8 * 0)) with 1. rewrite Z.div_1_r.
  change (2 ^ (8 * 1)) with 256.
  change (2 ^ (8 * 2)) with (256 * 256).
  change (2 ^ (8 * 3)) with (256 * 256 * 256).
  change (2 ^ (8 * 4)) with (256 * 256 * 256 * 256).
  change (2 ^ (8 * 5)) with (256 * 256 * 256 * 256 * 256).
  change (2 ^ (8 * 6)) with (256 * 256 * 256 * 256 * 256 * 256).
  change (2 ^ (8 * 7)) with (256 * 256 * 256 * 256 * 256 * 256 * 256).
  rewrite <- !Z.div_div by lia.
  set (q1 := w / 256). set (q2 := q1 / 256). set (q3 := q2 / 256).
  set (q4 := q3 / 256). set (q5 := q4 / 256). set (q6 := q5 / 256).
  set (q7 := q6 / 256).
  change (2 ^ 64) with 18446744073709551616 in Hw.
  change (2 ^ 8) with 256. change (2 ^ 16) with 65536.
  change (2 ^ 24) with 16777216. change (2 ^ 32) with 4294967296.
  change (2 ^ 40) with 1099511627776. change (2 ^ 48) with 281474976710656.
  change (2 ^ 56) with 72057594037927936.
  subst q7 q6 q5 q4 q3 q2 q1. Z.div_mod_to_equations. lia.
Qed.

Lemma mod_256_byte (x : Z) : Keccak.is_byte (x mod 256).
Proof. unfold Keccak.is_byte. apply Z.mod_pos_bound. lia. Qed.

(** The bytes that [wordToBytes] witnesses for a word. *)
Lemma wordToBytes_word (w : Z) :
  Lanes.is_word w ->
  exists bytes,
    Keccak.wordToBytes (Fld w) = Ok (map Fld bytes)
    /\ List.length bytes = 8%nat /\ Forall Keccak.is_byte bytes
    /\ Keccak.bytesToWord (map Fld bytes) = Ok w.
Proof.
  intros Hw. pose proof (word_bytes_sum w Hw) as E.
  pose proof (wordToBytes_8 _ _ _ _ _ _ _ _
                (mod_256_byte (w / 2 ^ (8 * 0))) (mod_256_byte (w / 2 ^ (8 * 1)))
                (mod_256_byte (w / 2 ^ (8 * 2))) (mod_256_byte (w / 2 ^ (8 * 3)))
                (mod_256_byte (w / 2 ^ (8 * 4))) (mod_256_byte (w / 2 ^ (8 * 5)))
                (mod_256_byte (w / 2 ^ (8 * 6))) (mod_256_byte (w / 2 ^ (8 * 7)))) as Hto.
  pose proof (bytesToWord_8 _ _ _ _ _ _ _ _
                (mod_256_byte (w / 2 ^ (8 * 0))) (mod_256_byte (w / 2 ^ (8 * 1)))
                (mod_256_byte (w / 2 ^ (8 * 2))) (mod_256_byte (w / 2 ^ (8 * 3)))
                (mod_256_byte (w / 2 ^ (8 * 4))) (mod_256_byte (w / 2 ^ (8 * 5)))
                (mod_256_byte (w / 2 ^ (8 * 6))) (mod_256_byte (w / 2 ^ (8 * 7)))) as Hfrom.
  rewrite <- E in Hto, Hfrom.
  eexists. split; [exact Hto |]. split; [reflexivity |]. split; [| exact Hfrom].
  repeat constructor; apply mod_256_byte.
Qed.

Lemma byte_slots_bytes (l : array) :
  Forall Lanes.byte_slot l ->
  exists bytes, l = map Fld bytes /\ Forall Keccak.is_byte bytes.
Proof.
  induction 1 as [| v l (x & -> & Hx) _ (bytes & -> & Hb)].
  - exists []. split; [reflexivity | constructor].
  - exists (x :: bytes). split; [reflexivity | constructor; assumption].
Qed.

Lemma bytes_byte_slots (bytes : list Z) :
  Forall Keccak.is_byte bytes -> Forall Lanes.byte_slot (map Fld bytes).
Proof.
  induction 1 as [| x l Hx _ IH]; cbn [map]; constructor; [| assumption].
  exists x. split; [reflexivity | assumption].
Qed.

Lemma bytesToWords_words (n : nat) :
  forall bytes : list Z,
    List.length bytes = (8 * n)%nat -> Forall Keccak.is_byte bytes ->
    exists words,
      Keccak.bytesToWords (map Fld bytes) = Ok words
      /\ List.length words = n /\ Forall Lanes.word_slot words.
Proof.
  induction n as [| n IH]; intros bytes Hlen Hb.
  - destruct bytes; [| cbn [List.length] in Hlen; lia].
    exists []. repeat split. constructor.
  - do 8 (destruct bytes as [| ? bytes]; [cbn [List.length] in Hlen; lia |]).
    repeat match goal with
           | H : Forall _ (_ :: _) |- _ => inversion H; subst; clear H
           end.
    destruct (IH bytes) as (words & Ew & Lw & Fw);
      [cbn [List.length] in Hlen; lia | assumption |].
    unfold Keccak.bytesToWords in Ew.
    destruct (Keccak.chunk (map Fld bytes) Keccak.BYTES_PER_WORD) as [chunks | |] eqn:Ec;
      try discriminate.
    cbn [bind] in Ew.
    eexists. split; [| split].
    + unfold Keccak.bytesToWords.
      change (map Fld (?a :: ?b :: ?c :: ?d :: ?e :: ?f :: ?g :: ?h :: bytes))
        with (map Fld [a; b; c; d; e; f; g; h] ++ map Fld bytes).
      rewrite (chunk_cons _ _ _ chunks) by (first [reflexivity | assumption]).
      cbn [bind mapM]. rewrite bytesToWord_8 by assumption. cbn [bind].
      rewrite Ew. cbn [bind]. reflexivity.
    + cbn [List.length]. rewrite Lw. reflexivity.
    + constructor; [| assumption].
      eexists. split; [reflexivity |].
      unfold Lanes.is_word, Keccak.is_byte in *.
      change (2 ^ 8) with 256. change (2 ^ 16) with 65536.
      change (2 ^ 24) with 16777216. change (2 ^ 32) with 4294967296.
      change (2 ^ 40) with 1099511627776. change (2 ^ 48) with 281474976710656.
      change (2 ^ 56) with 72057594037927936.
      change (2 ^ 64) with 18446744073709551616. lia.
Qed.

Lemma wordsToBytes_bytes (words : array) :
  Forall Lanes.word_slot words ->
  exists out,
    Keccak.wordsToBytes words = Ok out
    /\ List.length out = (8 * List.length words)%nat
    /\ Forall Lanes.byte_slot out.
Proof.
  intros F. unfold Keccak.wordsToBytes.
  induction F as [| v words (w & -> & Hw) F IH].
  - exists []. repeat split. constructor.
  - destruct (wordToBytes_word w Hw) as (bytes & Eb & Lb & Fb & _).
    destruct IH as (out & Eo & Lo & Fo).
    destruct (mapM Keccak.wordToBytes words) as [bs | |] eqn:Em; try discriminate.
    cbn [bind] in Eo. injection Eo as Eo.
    exists (map Fld bytes ++ out).
    cbn [mapM]. rewrite Eb. cbn [bind]. rewrite Em. cbn [bind concat]. rewrite Eo.
    split; [reflexivity |]. split.
    + rewrite length_app, length_map, Lb, Lo. cbn [List.length]. lia.
    + apply Forall_app. split; [apply bytes_byte_slots; assumption | assumption].
Qed.

(** ** Padding produces bytes *)

Lemma pad_bytes (message : array) (rate : Z) (nist : bool) :
  0 < rate -> Forall Lanes.byte_slot message ->
  exists padded,
    Keccak.pad message rate nist = Ok padded
    /\ Forall Lanes.byte_slot padded
    /\ Z.of_nat (List.length padded)
       = rate * (Z.of_nat (List.length message) / rate + 1).
Proof.
  intros Hr Hm. pose proof (pad_returns message rate nist Hr) as E.
  cbv zeta in E. rewrite E. eexists. split; [reflexivity |].
  pose proof (Z.mod_pos_bound (Z.of_nat (List.length message)) rate Hr) as Hb.
  pose proof (Z.div_mod (Z.of_nat (List.length message)) rate ltac:(lia)) as Hd.
  assert (B : forall x, Keccak.is_byte x -> Lanes.byte_slot (Fld x))
    by (intros x Hx; exists x; split; [reflexivity | assumption]).
  assert (B1 : Lanes.byte_slot (Fld (Field.add (Field.from (if nist then 6 else 1)) 128)))
    by (apply B; destruct nist; vm_compute; (split; [discriminate | reflexivity])).
  assert (B2 : Lanes.byte_slot (Fld (Field.from (if nist then 6 else 1))))
    by (apply B; destruct nist; vm_compute; (split; [discriminate | reflexivity])).
  assert (B3 : Lanes.byte_slot (Fld (Field.from 0)))
    by (apply B; vm_compute; split; [discriminate | reflexivity]).
  assert (B4 : Lanes.byte_slot (Fld (Field.add (Field.from 0) 128)))
    by (apply B; vm_compute; split; [discriminate | reflexivity]).
  split.
  - apply Forall_app. split; [assumption |].
    destruct (_ =? 1).
    + repeat constructor; assumption.
    + constructor; [assumption |]. apply Forall_app. split.
      * apply Forall_forall. intros v Hv. apply repeat_spec in Hv. subst v. assumption.
      * repeat constructor; assumption.
  - rewrite length_app, Nat2Z.inj_add.
    destruct (Z.eqb_spec (rate - Z.of_nat (List.length message) mod rate) 1) as [E1 | E1].
    + cbn [List.length]. lia.
    + cbn [List.length]. rewrite length_app, repeat_length. cbn [List.length]. lia.
Qed.

(** ** The sponge on well-formed input *)

Lemma squeeze_lanes (state : list array) (length rate : Z) :
  Lanes.lanes state -> 0 <= length < rate -> rate <= 25 ->
  exists out,
    Keccak.squeeze state length rate = Ok out
    /\ Z.of_nat (List.length out) = length /\ Forall Lanes.word_slot out.
Proof.
  intros Hs Hl Hr. unfold Keccak.squeeze.
  rewrite squeeze_assertion by lia.
  destruct (Z.ltb_spec length rate) as [_ | ?]; [| lia]. cbn [assert bind].
  destruct (toWords_lanes state Hs) as (words & -> & Lw & Fw). cbn [bind].
  eexists. split; [reflexivity |]. split.
  - rewrite length_js_slice; lia.
  - apply Forall_js_slice. assumption.
Qed.

(** [hash] up to the call of [sponge]: on valid parameters and a message of
    bytes, padding and the conversion to words succeed and hand the sponge
    a non-empty sequence of words whose length is a multiple of the rate. *)
Lemma hash_prelude (G : Gadgets) (message : array) (length capacity : Z) (nist : bool) :
  0 < capacity < 200 -> capacity mod 8 = 0 -> 0 < length -> length mod 8 = 0 ->
  Forall Lanes.byte_slot message ->
  exists padded,
    Forall Lanes.word_slot padded
    /\ 0 < Z.of_nat (List.length padded)
    /\ Z.of_nat (List.length padded) mod (25 - capacity / 8) = 0
    /\ Keccak.hash G message length capacity nist
       = (hash <- Keccak.sponge G padded (length / 8) (capacity / 8) (25 - capacity / 8) ;;
          hashBytes <- Keccak.wordsToBytes hash ;;
          Ok hashBytes)%result.
Proof.
  intros Hc Hc8 Hl Hl8 Hm. unfold Keccak.hash.
  change Keccak.KECCAK_STATE_LENGTH_BYTES with 200.
  change Keccak.KECCAK_STATE_LENGTH_WORDS with 25.
  change Keccak.BYTES_PER_WORD with 8.
  rewrite !Z.rem_mod_nonneg, Hc8, Hl8 by lia.
  destruct (Z.gtb_spec capacity 0) as [_ | ?]; [| lia].
  destruct (Z.ltb_spec capacity 200) as [_ | ?]; [| lia].
  destruct (Z.gtb_spec length 0) as [_ | ?]; [| lia].
  cbn [Z.eqb assert bind].
  assert (Hq : 1 <= capacity / 8 <= 24) by (Z.div_mod_to_equations; lia).
  set (rate := 25 - capacity / 8) in *.
  destruct (pad_bytes message (rate * 8) nist) as (paddedBytes & -> & Fb & Lb);
    [lia | assumption |].
  cbn [bind].
  destruct (byte_slots_bytes paddedBytes Fb) as (bytes & -> & Hb).
  rewrite length_map in Lb.
  set (m := Z.of_nat (List.length message) / (rate * 8) + 1) in *.
  assert (Hm0 : 0 < m).
  { subst m. pose proof (Z.div_pos (Z.of_nat (List.length message)) (rate * 8)). lia. }
  destruct (bytesToWords_words (Z.to_nat (rate * m)) bytes) as (padded & -> & Lp & Fp);
    [nia | assumption |].
  cbn [bind]. exists padded. split; [assumption |].
  split; [rewrite Lp; nia |]. split; [| reflexivity].
  rewrite Lp, Z2Nat.id by nia. rewrite Z.mul_comm. apply Z_mod_mult.
Qed.

Section ConformingSponge.

Variable G : Gadgets.
Hypothesis HG : Lanes.conforming G.

Lemma absorb_loop_lanes (padded zeros : array) (rate : Z) (rc : list Z) :
  0 < rate ->
  Forall Lanes.word_slot padded -> Forall Lanes.word_slot zeros ->
  Z.of_nat (List.length zeros) + rate = 25 ->
  Forall Lanes.is_word rc ->
  forall (n fuel : nat) (idx : Z) (state : list array),
    Lanes.lanes state -> 0 <= idx ->
    idx + rate * Z.of_nat n = Z.of_nat (List.length padded) ->
    (n < fuel)%nat ->
    exists state',
      Keccak.absorb_loop G fuel padded zeros rate rc idx state = Ok state'
      /\ Lanes.lanes state'.
Proof.
  intros Hr Hp Hz Hzl Hrc.
  induction n as [| n IH]; intros fuel idx state Hs Hi Hn Hf;
    (destruct fuel as [| fuel]; [lia |]); cbn [Keccak.absorb_loop].
  - destruct (Z.ltb_spec idx (Z.of_nat (List.length padded))) as [? | _]; [lia |].
    exists state. split; [reflexivity | assumption].
  - destruct (Z.ltb_spec idx (Z.of_nat (List.length padded))) as [_ | ?]; [| nia].
    destruct (fromWords_lanes (js_slice padded idx (idx + rate) ++ zeros))
      as (blockState & -> & Hbs).
    { apply Nat2Z.inj. rewrite length_app, Nat2Z.inj_add, length_js_slice by nia. lia. }
    { apply Forall_app. split; [apply Forall_js_slice |]; assumption. }
    cbn [bind].
    destruct (State_xor_lanes G HG state blockState Hs Hbs) as (stateXor & -> & Hx).
    cbn [bind].
    destruct (permutation_lanes G HG stateXor rc Hx Hrc) as (state' & -> & Hs').
    cbn [bind].
    apply IH; [assumption | lia | nia | lia].
Qed.

Lemma absorb_lanes (padded : array) (capacity rate : Z) (rc : list Z) :
  0 < rate -> 0 <= capacity -> rate + capacity = 25 ->
  Forall Lanes.word_slot padded ->
  Z.of_nat (List.length padded) mod rate = 0 ->
  Forall Lanes.is_word rc ->
  exists state,
    Keccak.absorb G padded capacity rate rc = Ok state /\ Lanes.lanes state.
Proof.
  intros Hr Hc Hrc Hp Hm Hw. unfold Keccak.absorb, js_rem.
  change Keccak.KECCAK_STATE_LENGTH_WORDS with 25.
  destruct (Z.eqb_spec (rate + capacity) 25) as [_ | ?]; [| lia].
  destruct (Z.eqb_spec rate 0) as [? | _]; [lia |].
  rewrite Z.rem_mod_nonneg, Hm by lia. cbn [assert bind].
  unfold js_fill. destruct (Z.ltb_spec capacity 0) as [? | _]; [lia |]. cbn [bind].
  apply Z.mod_divide in Hm; [| lia]. destruct Hm as [q Hq].
  apply (absorb_loop_lanes _ _ _ _ Hr Hp) with (n := Z.to_nat q).
  - apply Forall_forall. intros v Hv. apply repeat_spec in Hv. subst v.
    exists 0. split; [reflexivity |]. split; [lia | reflexivity].
  - rewrite repeat_length. lia.
  - assumption.
  - apply zeros_lanes.
  - lia.
  - nia.
  - nia.
Qed.

Lemma sponge_lanes (padded : array) (length capacity rate : Z) :
  0 < rate -> 0 <= capacity -> rate + capacity = 25 ->
  Forall Lanes.word_slot padded ->
  Z.of_nat (List.length padded) mod rate = 0 ->
  0 <= length < rate ->
  exists out,
    Keccak.sponge G padded length capacity rate = Ok out
    /\ Z.of_nat (List.length out) = length /\ Forall Lanes.word_slot out.
Proof.
  intros Hr Hc Hrc Hp Hm Hl. unfold Keccak.sponge, js_rem.
  destruct (Z.eqb_spec rate 0) as [? | _]; [lia |].
  rewrite Z.rem_mod_nonneg, Hm by lia. cbn [assert bind].
  destruct (absorb_lanes padded capacity rate Keccak.ROUND_CONSTANTS)
    as (state & -> & Hs); try assumption; [apply round_constants_words |].
  cbn [bind].
  destruct (squeeze_lanes state length rate Hs Hl) as (out & -> & Lo & Fo); [lia |].
  cbn [bind]. exists out. repeat split; assumption.
Qed.

(** When the output does not fit below the rate, the sponge absorbs the
    whole message and then fails in [squeeze]. *)
Lemma sponge_output_limit (padded : array) (length capacity rate : Z) :
  0 < rate -> 0 <= capacity -> rate + capacity = 25 ->
  Forall Lanes.word_slot padded ->
  Z.of_nat (List.length padded) mod rate = 0 ->
  rate <= length ->
  Keccak.sponge G padded length capacity rate = Throw (Error "squeezes should be 1").
Proof.
  intros Hr Hc Hrc Hp Hm Hl. unfold Keccak.sponge, js_rem.
  destruct (Z.eqb_spec rate 0) as [? | _]; [lia |].
  rewrite Z.rem_mod_nonneg, Hm by lia. cbn [assert bind].
  destruct (absorb_lanes padded capacity rate Keccak.ROUND_CONSTANTS)
    as (state & -> & Hs); try assumption; [apply round_constants_words |].
  cbn [bind]. unfold Keccak.squeeze.
  rewrite squeeze_assertion by lia.
  destruct (Z.ltb_spec length rate) as [? | _]; [lia |]. reflexivity.
Qed.

Lemma hash_bytes (message : array) (length capacity : Z) (nist : bool) :
  0 < capacity < 200 -> capacity mod 8 = 0 -> 0 < length -> length mod 8 = 0 ->
  length / 8 < 25 - capacity / 8 ->
  Forall Lanes.byte_slot message ->
  exists out,
    Keccak.hash G message length capacity nist = Ok out
    /\ Z.of_nat (List.length out) = length /\ Forall Lanes.byte_slot out.
Proof.
  intros Hc Hc8 Hl Hl8 Hfit Hm.
  destruct (hash_prelude G message length capacity nist Hc Hc8 Hl Hl8 Hm)
    as (padded & Fp & _ & Lp & ->).
  assert (Hq : 1 <= capacity / 8 <= 24) by (Z.div_mod_to_equations; lia).
  destruct (sponge_lanes padded (length / 8) (capacity / 8) (25 - capacity / 8))
    as (words & -> & Lw & Fw); try assumption; try lia.
  { split; [apply Z.div_pos; lia | assumption]. }
  cbn [bind].
  destruct (wordsToBytes_bytes words Fw) as (out & -> & Lo & Fo). cbn [bind].
  exists out. split; [reflexivity |]. split; [| assumption].
  rewrite Lo, Nat2Z.inj_mul, Lw. change (Z.of_nat 8) with 8.
  Z.div_mod_to_equations; lia.
Qed.


End ConformingSponge.

(** * The Keccak functions on well-formed and on malformed input *)

(** ** The codec between bytes and words *)

(** A field element of 2^64 or more: its eight low bytes pass the range
    checks but compose to less than 2^64. *)
Lemma wordToBytes_wide (w : Z) :
  2 ^ 64 <= w < Field.modulus ->
  Keccak.wordToBytes (Fld w) = Throw (Error "Field.assertEquals(): not equal").
Proof.
  intros Hw. unfold Keccak.wordToBytes. cbn [as_field bind].
  change (range (Z.to_nat Keccak.BYTES_PER_WORD)) with [0; 1; 2; 3; 4; 5; 6; 7].
  cbn [map]. change 255 with (Z.ones 8). rewrite !Z.land_ones by lia.
  change (2 ^ 8) with 256.
  set (b0 := Z.shiftr w (8 * 0) mod 256). set (b1 := Z.shiftr w (8 * 1) mod 256).
  set (b2 := Z.shiftr w (8 * 2) mod 256). set (b3 := Z.shiftr w (8 * 3) mod 256).
  set (b4 := Z.shiftr w (8 * 4) mod 256). set (b5 := Z.shiftr w (8 * 5) mod 256).
  set (b6 := Z.shiftr w (8 * 6) mod 256). set (b7 := Z.shiftr w (8 * 7) mod 256).
  pose proof (mod_256_byte (Z.shiftr w (8 * 0))) as H0.
  pose proof (mod_256_byte (Z.shiftr w (8 * 1))) as H1.
  pose proof (mod_256_byte (Z.shiftr w (8 * 2))) as H2.
  pose proof (mod_256_byte (Z.shiftr w (8 * 3))) as H3.
  pose proof (mod_256_byte (Z.shiftr w (8 * 4))) as H4.
  pose proof (mod_256_byte (Z.shiftr w (8 * 5))) as H5.
  pose proof (mod_256_byte (Z.shiftr w (8 * 6))) as H6.
  pose proof (mod_256_byte (Z.shiftr w (8 * 7))) as H7.
  fold b0 in H0. fold b1 in H1. fold b2 in H2. fold b3 in H3.
  fold b4 in H4. fold b5 in H5. fold b6 in H6. fold b7 in H7.
  clearbody b0 b1 b2 b3 b4 b5 b6 b7.
  assert (Hm : 256 < Field.modulus) by reflexivity.
  pose proof H0 as K0. pose proof H1 as K1. pose proof H2 as K2. pose proof H3 as K3.
  pose proof H4 as K4. pose proof H5 as K5. pose proof H6 as K6. pose proof H7 as K7.
  unfold Keccak.is_byte in K0, K1, K2, K3, K4, K5, K6, K7.
  rewrite !from_small by lia.
  cbn [mapM]. unfold Keccak.rangeCheck8.
  repeat match goal with
         | |- context [?b <? 256] =>
           destruct (Z.ltb_spec b 256) as [_ | ?]; [| lia]
         end.
  cbn [assert bind].
  pose proof (bytesToWord_8 b0 b1 b2 b3 b4 b5 b6 b7 H0 H1 H2 H3 H4 H5 H6 H7) as Hsum.
  cbn [map] in Hsum. rewrite Hsum. cbn [bind].
  unfold Field.assertEquals.
  match goal with |- context [?s =? w] => destruct (Z.eqb_spec s w) as [E | _] end;
    [| reflexivity].
  exfalso. revert E Hw.
  change (2 ^ 8) with 256. change (2 ^ 16) with 65536.
  change (2 ^ 24) with 16777216. change (2 ^ 32) with 4294967296.
  change (2 ^ 40) with 1099511627776. change (2 ^ 48) with 281474976710656.
  change (2 ^ 56) with 72057594037927936.
  change (2 ^ 64) with 18446744073709551616. lia.
Qed.

(** X9. wordToBytes accepts exactly the words.  For a field element below
    2^64 it returns eight bytes, each below 256, which bytesToWord composes
    back into the word: the round trip in the direction opposite to that of
    wordsToBytes after bytesToWords.  For a field element of 2^64 or more
    the decomposition check fails. *)
Theorem wordToBytes_accepts_words (w : Z) :
  0 <= w < Field.modulus ->
  (w < 2 ^ 64 ->
   exists bytes,
     Keccak.wordToBytes (Fld w) = Ok (map Fld bytes)
     /\ List.length bytes = 8%nat
     /\ Forall Keccak.is_byte bytes
     /\ Keccak.bytesToWord (map Fld bytes) = Ok w)
  /\ (2 ^ 64 <= w ->
      Keccak.wordToBytes (Fld w) = Throw (Error "Field.assertEquals(): not equal")).
Proof.
  intros Hw. split; intros H.
  - apply wordToBytes_word. unfold Lanes.is_word. lia.
  - apply wordToBytes_wide. lia.
Qed.

Lemma wordToBytes_accepts_words_witness :
  (exists bytes,
     Keccak.wordToBytes (Fld 0x0102030405060708) = Ok (map Fld bytes)
     /\ List.length bytes = 8%nat
     /\ Forall Keccak.is_byte bytes
     /\ Keccak.bytesToWord (map Fld bytes) = Ok 0x0102030405060708)
  /\ Keccak.wordToBytes (Fld (2 ^ 64)) = Throw (Error "Field.assertEquals(): not equal").
Proof.
  split.
  - apply (wordToBytes_accepts_words 0x0102030405060708).
    + split; [discriminate | reflexivity].
    + reflexivity.
  - apply (wordToBytes_accepts_words (2 ^ 64)).
    + split; [discriminate | reflexivity].
    + discriminate.
Defined.

Lemma chunk_returns {T : Type} (size : Z) (n : nat) :
  0 < size ->
  forall l : list T,
    Z.of_nat (List.length l) = Z.of_nat n * size ->
    exists chunks,
      Keccak.chunk l size = Ok chunks
      /\ concat chunks = l
      /\ List.length chunks = n
      /\ Forall (fun c => Z.of_nat (List.length c) = size) chunks.
Proof.
  intros Hs. induction n as [| n IH]; intros l Hl.
  - destruct l; [| cbn [List.length] in Hl; lia].
    exists []. unfold Keccak.chunk, js_rem.
    destruct (Z.eqb_spec size 0) as [? | _]; [lia |].
    cbn [List.length Z.of_nat]. rewrite Z.rem_0_l, Z.div_0_l by lia.
    repeat split. constructor.
  - destruct (IH (skipn (Z.to_nat size) l)) as (chunks & Ec & Cc & Lc & Fc).
    { rewrite length_skipn. lia. }
    assert (Lf : Z.of_nat (List.length (firstn (Z.to_nat size) l)) = size)
      by (rewrite length_firstn; lia).
    exists (firstn (Z.to_nat size) l :: chunks).
    split; [| split; [| split]].
    + rewrite <- (firstn_skipn (Z.to_nat size) l) at 1.
      apply chunk_cons; assumption.
    + cbn [concat]. rewrite Cc. apply firstn_skipn.
    + cbn [List.length]. rewrite Lc. reflexivity.
    + constructor; assumption.
Qed.

Lemma chunk_throws {T : Type} (l : list T) (size : Z) :
  0 < size -> Z.of_nat (List.length l) mod size <> 0 ->
  Keccak.chunk l size = Throw (Error "invalid input length").
Proof.
  intros Hs Hm. unfold Keccak.chunk, js_rem.
  destruct (Z.eqb_spec size 0) as [? | _]; [lia |].
  rewrite Z.rem_mod_nonneg by lia.
  destruct (Z.of_nat (List.length l) mod size) as [| p | p]; [lia | reflexivity | reflexivity].
Qed.

(** X10. With a positive size, chunk accepts exactly the arrays whose length
    is a multiple of the size; what it then returns is a partition of the
    array: length/size chunks of size elements each, which concatenate back
    to the array. *)
Theorem chunk_partition (T : Type) (l : list T) (size : Z) :
  0 < size ->
  (Z.of_nat (List.length l) mod size = 0 ->
   exists chunks,
     Keccak.chunk l size = Ok chunks
     /\ concat chunks = l
     /\ Z.of_nat (List.length chunks) = Z.of_nat (List.length l) / size
     /\ Forall (fun c => Z.of_nat (List.length c) = size) chunks)
  /\ (Z.of_nat (List.length l) mod size <> 0 ->
      Keccak.chunk l size = Throw (Error "invalid input length")).
Proof.
  intros Hs. split; [| apply chunk_throws; assumption].
  intros Hm. apply Z.mod_divide in Hm; [| lia]. destruct Hm as [q Hq].
  assert (Hq0 : 0 <= q) by nia.
  destruct (chunk_returns size (Z.to_nat q) Hs l) as (chunks & E & C & L & F); [lia |].
  exists chunks. repeat split; try assumption.
  rewrite L, Hq, Z.div_mul by lia. lia.
Qed.

Lemma chunk_partition_witness :
  (exists chunks,
     Keccak.chunk [1; 2; 3; 4; 5; 6] 2 = Ok chunks
     /\ concat chunks = [1; 2; 3; 4; 5; 6]
     /\ Z.of_nat (List.length chunks) = Z.of_nat (List.length [1; 2; 3; 4; 5; 6]) / 2
     /\ Forall (fun c => Z.of_nat (List.length c) = 2) chunks)
  /\ Keccak.chunk [1; 2; 3; 4; 5] 2 = Throw (Error "invalid input length").
Proof.
  split.
  - apply (chunk_partition Z [1; 2; 3; 4; 5; 6] 2); reflexivity.
  - apply (chunk_partition Z [1; 2; 3; 4; 5] 2); [reflexivity | discriminate].
Defined.

(** X11. On an array of bytes bytesToWords accepts exactly the lengths that
    are multiples of 8, and then returns one word, below 2^64, for each
    group of eight bytes; any other length fails in chunk. *)
Theorem bytesToWords_shape (bytes : array) :
  Forall Lanes.byte_slot bytes ->
  (Z.of_nat (List.length bytes) mod 8 = 0 ->
   exists words,
     Keccak.bytesToWords bytes = Ok words
     /\ 8 * Z.of_nat (List.length words) = Z.of_nat (List.length bytes)
     /\ Forall Lanes.word_slot words)
  /\ (Z.of_nat (List.length bytes) mod 8 <> 0 ->
      Keccak.bytesToWords bytes = Throw (Error "invalid input length")).
Proof.
  intros Hb. split.
  - intros Hm. destruct (byte_slots_bytes bytes Hb) as (bs & -> & Fb).
    rewrite length_map in *.
    apply Z.mod_divide in Hm; [| lia]. destruct Hm as [q Hq].
    destruct (bytesToWords_words (Z.to_nat q) bs) as (words & E & L & F);
      [lia | assumption |].
    exists words. repeat split; try assumption. lia.
  - intros Hm. unfold Keccak.bytesToWords.
    rewrite chunk_throws; [reflexivity | reflexivity | assumption].
Qed.

Lemma bytesToWords_shape_witness :
  (exists words,
     Keccak.bytesToWords (map Fld [1; 2; 3; 4; 5; 6; 7; 8]) = Ok words
     /\ 8 * Z.of_nat (List.length words)
        = Z.of_nat (List.length (map Fld [1; 2; 3; 4; 5; 6; 7; 8]))
     /\ Forall Lanes.word_slot words)
  /\ Keccak.bytesToWords (map Fld [1; 2; 3]) = Throw (Error "invalid input length").
Proof.
  split.
  - apply (bytesToWords_shape (map Fld [1; 2; 3; 4; 5; 6; 7; 8])); [| reflexivity].
    apply bytes_byte_slots. unfold Keccak.is_byte. repeat constructor; lia.
  - apply (bytesToWords_shape (map Fld [1; 2; 3])); [| discriminate].
    apply bytes_byte_slots. unfold Keccak.is_byte. repeat constructor; lia.
Defined.

(** ** Padding *)

(** X12. With a positive rate, pad appends rate - (length mod rate) bytes to
    the message, never none: the byte at position 0 of the padding carries
    the domain marker (0x06 for NIST, 0x01 otherwise), the byte at the last
    position carries 0x80, both added into the same byte when the padding
    is a single byte, and every other byte is zero. *)
Theorem pad_shape (message : array) (rate : Z) (nist : bool) :
  0 < rate ->
  let extraBytes := rate - Z.of_nat (List.length message) mod rate in
  let first := if nist then 0x06 else 0x01 in
  exists padBytes,
    Keccak.pad message rate nist = Ok (message ++ map Fld padBytes)
    /\ Z.of_nat (List.length padBytes) = extraBytes
    /\ 0 < extraBytes
    /\ forall k, 0 <= k < extraBytes ->
         nth (Z.to_nat k) padBytes 0
         = (if k =? 0 then first else 0) + (if k =? extraBytes - 1 then 0x80 else 0).
Proof.
  intros Hr extraBytes first.
  pose proof (pad_returns message rate nist Hr) as E. cbv zeta in E.
  fold extraBytes in E. fold first in E.
  pose proof (Z.mod_pos_bound (Z.of_nat (List.length message)) rate Hr) as Hb.
  assert (He : 0 < extraBytes) by (subst extraBytes; lia).
  assert (F1 : Field.add (Field.from first) 128 = first + 128)
    by (subst first; destruct nist; reflexivity).
  assert (F2 : Field.from first = first) by (subst first; destruct nist; reflexivity).
  change (Field.add (Field.from 0) 128) with 128 in E.
  change (Field.from 0) with 0 in E. rewrite F1, F2 in E.
  destruct (Z.eqb_spec extraBytes 1) as [E1 | E1].
  - exists [first + 128]. split; [exact E |]. split; [cbn [List.length]; lia |].
    split; [assumption |]. intros k Hk. assert (k = 0) by lia. subst k.
    rewrite E1. reflexivity.
  - exists (first :: repeat 0 (Z.to_nat (extraBytes - 2)) ++ [128]).
    split; [| split; [| split; [assumption |]]].
    + rewrite E. cbn [map]. rewrite map_app, map_repeat. reflexivity.
    + cbn [List.length]. rewrite length_app, repeat_length. cbn [List.length]. lia.
    + intros k Hk.
      destruct (Z.eqb_spec k 0) as [-> | Hk0].
      * destruct (Z.eqb_spec 0 (extraBytes - 1)) as [? | _]; [lia |].
        cbn [Z.to_nat nth]. lia.
      * replace (Z.to_nat k) with (S (Z.to_nat (k - 1))) by lia. cbn [nth].
        destruct (Z.eqb_spec k (extraBytes - 1)) as [-> | Hk1].
        -- rewrite app_nth2 by (rewrite repeat_length; lia).
           rewrite repeat_length.
           replace (Z.to_nat (extraBytes - 1 - 1) - Z.to_nat (extraBytes - 2))%nat
             with 0%nat by lia.
           reflexivity.
        -- rewrite app_nth1 by (rewrite repeat_length; lia).
           rewrite nth_repeat. reflexivity.
Qed.

Lemma pad_shape_witness :
  exists padBytes,
    Keccak.pad [Fld 7; Fld 9] 5 true = Ok ([Fld 7; Fld 9] ++ map Fld padBytes)
    /\ Z.of_nat (List.length padBytes) = 3
    /\ 0 < 3
    /\ forall k, 0 <= k < 3 ->
         nth (Z.to_nat k) padBytes 0
         = (if k =? 0 then 0x06 else 0) + (if k =? 3 - 1 then 0x80 else 0).
Proof. apply (pad_shape [Fld 7; Fld 9] 5 true). reflexivity. Defined.

(** X13. A rate that is not positive makes pad throw: a zero rate turns the
    pad length into NaN, a negative rate makes it negative, and either is
    refused by the Array constructor. *)
Theorem pad_rejects_nonpositive_rate (message : array) (rate : Z) (nist : bool) :
  rate <= 0 ->
  Keccak.pad message rate nist = Throw (RangeError "Invalid array length").
Proof.
  intros Hr. unfold Keccak.pad, Keccak.bytesToPad, js_rem.
  destruct (Z.eqb_spec rate 0) as [_ | Hr0]; [reflexivity |].
  cbn [option_map].
  pose proof (Z.rem_nonneg (Z.of_nat (List.length message)) rate Hr0 ltac:(lia)) as Hn.
  unfold js_fill.
  destruct (Z.ltb_spec (rate - Z.rem (Z.of_nat (List.length message)) rate) 0) as [_ | ?];
    [reflexivity | lia].
Qed.

Lemma pad_rejects_nonpositive_rate_witness :
  Keccak.pad [Fld 1] (-4) false = Throw (RangeError "Invalid array length").
Proof. apply (pad_rejects_nonpositive_rate [Fld 1] (-4) false). lia. Defined.

(** ** The state *)

(** X14. On a 5x5 state toWords returns 25 slots from which fromWords
    rebuilds the very same state: the round trip in the direction opposite
    to that of toWords after fromWords. *)
Theorem fromWords_toWords (state : list array) :
  Keccak.is_5x5 state = true ->
  exists words,
    Keccak.State.toWords state = Ok words
    /\ List.length words = 25%nat
    /\ Keccak.State.fromWords words = Ok state.
Proof.
  intros H5. apply is_5x5_inv in H5.
  repeat match goal with H : exists _, _ |- _ => destruct H end. subst.
  rewrite toWords_5x5. eexists. split; [reflexivity |]. split; reflexivity.
Qed.

Lemma fromWords_toWords_witness :
  exists words,
    Keccak.State.toWords Keccak.State.zeros = Ok words
    /\ List.length words = 25%nat
    /\ Keccak.State.fromWords words = Ok Keccak.State.zeros.
Proof. apply (fromWords_toWords Keccak.State.zeros). reflexivity. Defined.

(** X15. State.xor keeps the shape of the state: given gadgets that return
    words on words, the XOR of two states of 5x5 words returns, and returns
    a state of 5x5 words. *)
Theorem State_xor_keeps_lanes (G : Gadgets) (a b : list array) :
  Lanes.conforming G -> Lanes.lanes a -> Lanes.lanes b ->
  exists c, Keccak.State.xor G a b = Ok c /\ Lanes.lanes c.
Proof. intros HG. apply State_xor_lanes. assumption. Qed.

Lemma State_xor_keeps_lanes_witness :
  exists c,
    Keccak.State.xor GadgetsImpl.contract Keccak.State.zeros Keccak.State.zeros = Ok c
    /\ Lanes.lanes c.
Proof.
  apply (State_xor_keeps_lanes GadgetsImpl.contract Keccak.State.zeros Keccak.State.zeros).
  - apply contract_conforming.
  - apply zeros_lanes.
  - apply zeros_lanes.
Defined.

(** X16. Each step of the round function is total on well-formed states and
    keeps them well formed: given gadgets that return words on words, theta,
    piRho, chi and iota (with a word as round constant), and so round,
    return a state of 5x5 words on a state of 5x5 words.  In particular no
    index that they compute leaves the state and no slot is left undefined. *)
Theorem round_steps_keep_lanes (G : Gadgets) (state : list array) (rc : Z) :
  Lanes.conforming G -> Lanes.lanes state -> Lanes.is_word rc ->
  (exists s, Keccak.theta G state = Ok s /\ Lanes.lanes s)
  /\ (exists s, Keccak.piRho G state = Ok s /\ Lanes.lanes s)
  /\ (exists s, Keccak.chi G state = Ok s /\ Lanes.lanes s)
  /\ (exists s, Keccak.iota G state rc = Ok s /\ Lanes.lanes s)
  /\ (exists s, Keccak.round G state rc = Ok s /\ Lanes.lanes s).
Proof.
  intros HG Hs Hrc. repeat split.
  - apply theta_lanes; assumption.
  - apply piRho_lanes; assumption.
  - apply chi_lanes; assumption.
  - apply iota_lanes; assumption.
  - apply round_lanes; assumption.
Qed.

Lemma round_steps_keep_lanes_witness :
  (exists s, Keccak.theta GadgetsImpl.contract Keccak.State.zeros = Ok s /\ Lanes.lanes s)
  /\ (exists s, Keccak.piRho GadgetsImpl.contract Keccak.State.zeros = Ok s /\ Lanes.lanes s)
  /\ (exists s, Keccak.chi GadgetsImpl.contract Keccak.State.zeros = Ok s /\ Lanes.lanes s)
  /\ (exists s, Keccak.iota GadgetsImpl.contract Keccak.State.zeros 1 = Ok s /\ Lanes.lanes s)
  /\ (exists s, Keccak.round GadgetsImpl.contract Keccak.State.zeros 1 = Ok s /\ Lanes.lanes s).
Proof.
  apply (round_steps_keep_lanes GadgetsImpl.contract Keccak.State.zeros 1).
  - apply contract_conforming.
  - apply zeros_lanes.
  - unfold Lanes.is_word. lia.
Defined.

(** X17. The permutation returns on every well-formed state: given gadgets
    that return words on words and any list of words as round constants,
    the 24 round constants of the file among them, it returns a state of
    5x5 words. *)
Theorem permutation_keeps_lanes (G : Gadgets) (state : list array) (rc : list Z) :
  Lanes.conforming G -> Lanes.lanes state -> Forall Lanes.is_word rc ->
  exists state', Keccak.permutation G state rc = Ok state' /\ Lanes.lanes state'.
Proof. intros HG. apply permutation_lanes. assumption. Qed.

Lemma permutation_keeps_lanes_witness :
  exists state',
    Keccak.permutation GadgetsImpl.contract Keccak.State.zeros Keccak.ROUND_CONSTANTS
    = Ok state'
    /\ Lanes.lanes state'.
Proof.
  apply (permutation_keeps_lanes GadgetsImpl.contract Keccak.State.zeros
                                 Keccak.ROUND_CONSTANTS).
  - apply contract_conforming.
  - apply zeros_lanes.
  - apply round_constants_words.
Defined.

Lemma set_nth_other {A : Type} (undef v : A) (n m : nat) (l : list A) :
  n <> m -> nth n (set_nth undef m v l) undef = nth n l undef.
Proof.
  revert n l. induction m as [| m IH]; intros n l Hn.
  - destruct n as [| n]; [congruence |]. destruct l as [| x l]; cbn [set_nth nth].
    + destruct n; reflexivity.
    + reflexivity.
  - destruct n as [| n].
    + destruct l; reflexivity.
    + destruct l as [| x l]; cbn [set_nth nth].
      * rewrite IH by congruence. destruct n; reflexivity.
      * apply IH. congruence.
Qed.

(** X18. iota touches one lane only: whatever the gadgets, when iota returns,
    the state it returns has as many rows as before and every slot other
    than [0][0] reads as it did before. *)
Theorem iota_touches_only_origin
        (G : Gadgets) (state state' : list array) (rc i j : Z) :
  Keccak.iota G state rc = Ok state' ->
  (i, j) <> (0, 0) ->
  List.length state' = List.length state
  /\ cell_get state' i j = cell_get state i j.
Proof.
  unfold Keccak.iota, cell_get, cell_set, row_get.
  destruct state as [| r0 rest].
  - cbn [List.length Z.of_nat]. cbn. discriminate.
  - replace ((0 <=? 0) && (0 <? Z.of_nat (List.length (r0 :: rest)))) with true
      by (cbn [List.length]; symmetry; apply andb_true_iff; split;
          [reflexivity | apply Z.ltb_lt; lia]).
    cbn [bind Z.to_nat nth].
    destruct (as_field (js_get Undefined r0 0)) as [x | |]; cbn [bind]; try discriminate.
    destruct (g_xor G x (Field.from rc) Keccak.KECCAK_WORD) as [out | |];
      cbn [bind]; try discriminate.
    cbn [set_nth]. intros E Hij. injection E as <-.
    split; [reflexivity |].
    cbn [List.length].
    destruct ((0 <=? i) && (i <? Z.of_nat (S (List.length rest)))) eqn:Hc;
      [| reflexivity].
    apply andb_true_iff in Hc. destruct Hc as [Hi _]. apply Z.leb_le in Hi.
    cbn [bind]. f_equal.
    destruct (Z.to_nat i) as [| n] eqn:Ei; cbn [nth]; [| reflexivity].
    assert (i = 0) by lia. subst i.
    unfold js_get, js_set. cbn [Z.ltb Z.compare Z.to_nat].
    destruct (Z.ltb_spec j 0) as [? | Hj]; [reflexivity |].
    apply set_nth_other. intros Hz. apply Hij. f_equal. lia.
Qed.

Lemma iota_touches_only_origin_witness :
  List.length [[Fld 1; Fld 2]; [Fld 3; Fld 4]] = List.length [[Fld 0; Fld 2]; [Fld 3; Fld 4]]
  /\ cell_get [[Fld 1; Fld 2]; [Fld 3; Fld 4]] 1 1
     = cell_get [[Fld 0; Fld 2]; [Fld 3; Fld 4]] 1 1.
Proof.
  apply (iota_touches_only_origin GadgetsImpl.contract
           [[Fld 0; Fld 2]; [Fld 3; Fld 4]] [[Fld 1; Fld 2]; [Fld 3; Fld 4]] 1 1 1).
  - reflexivity.
  - discriminate.
Defined.

(** ** The sponge *)

(** X19. absorb checks its parameters before it touches the message,
    whatever the gadgets: rate and capacity must add up to 25 words, and
    the rate must divide the length of the padded message (a zero rate
    divides nothing); a rate above 25 passes both checks on a message it
    divides but makes the capacity negative, which the Array constructor
    refuses. *)
Theorem absorb_validation
        (G : Gadgets) (paddedMessage : array) (capacity rate : Z) (rc : list Z) :
  (rate + capacity <> 25 ->
   Keccak.absorb G paddedMessage capacity rate rc
   = Throw (Error "invalid rate or capacity (rate + capacity should be ${KECCAK_STATE_LENGTH_WORDS})"))
  /\ (rate + capacity = 25 ->
      rate = 0 \/ Z.rem (Z.of_nat (List.length paddedMessage)) rate <> 0 ->
      Keccak.absorb G paddedMessage capacity rate rc
      = Throw (Error "invalid padded message length (should be multiple of rate)"))
  /\ (rate + capacity = 25 -> 25 < rate ->
      Z.rem (Z.of_nat (List.length paddedMessage)) rate = 0 ->
      Keccak.absorb G paddedMessage capacity rate rc
      = Throw (RangeError "Invalid array length")).
Proof.
  unfold Keccak.absorb, js_rem. change Keccak.KECCAK_STATE_LENGTH_WORDS with 25.
  split; [| split].
  - intros H. destruct (Z.eqb_spec (rate + capacity) 25) as [? | _]; [lia | reflexivity].
  - intros H Hr. destruct (Z.eqb_spec (rate + capacity) 25) as [_ | ?]; [| lia].
    cbn [assert bind].
    destruct (Z.eqb_spec rate 0) as [? | Hr0]; [reflexivity |].
    destruct Hr as [? | Hr]; [lia |].
    destruct (Z.rem (Z.of_nat (List.length paddedMessage)) rate) as [| p | p];
      [congruence | reflexivity | reflexivity].
  - intros H Hr Hm. destruct (Z.eqb_spec (rate + capacity) 25) as [_ | ?]; [| lia].
    destruct (Z.eqb_spec rate 0) as [? | _]; [lia |].
    rewrite Hm. cbn [assert bind]. unfold js_fill.
    destruct (Z.ltb_spec capacity 0) as [_ | ?]; [reflexivity | lia].
Qed.

Lemma absorb_validation_witness :
  Keccak.absorb GadgetsImpl.contract [] 8 16 Keccak.ROUND_CONSTANTS
  = Throw (Error "invalid rate or capacity (rate + capacity should be ${KECCAK_STATE_LENGTH_WORDS})")
  /\ Keccak.absorb GadgetsImpl.contract [Fld 1] 8 17 Keccak.ROUND_CONSTANTS
     = Throw (Error "invalid padded message length (should be multiple of rate)")
  /\ Keccak.absorb GadgetsImpl.contract [] (-1) 26 Keccak.ROUND_CONSTANTS
     = Throw (RangeError "Invalid array length").
Proof.
  split; [| split].
  - apply (absorb_validation GadgetsImpl.contract [] 8 16 Keccak.ROUND_CONSTANTS).
    discriminate.
  - apply (absorb_validation GadgetsImpl.contract [Fld 1] 8 17 Keccak.ROUND_CONSTANTS).
    + reflexivity.
    + right. discriminate.
  - apply (absorb_validation GadgetsImpl.contract [] (-1) 26 Keccak.ROUND_CONSTANTS);
      reflexivity.
Defined.

(** X20. absorb is total on well-formed input: given gadgets that return
    words on words, a positive rate that adds up to 25 with the capacity
    and divides the length of a padded message of words, and words as round
    constants, the block loop ends after length/rate blocks and absorb
    returns a state of 5x5 words. *)
Theorem absorb_returns_lanes
        (G : Gadgets) (paddedMessage : array) (capacity rate : Z) (rc : list Z) :
  Lanes.conforming G ->
  0 < rate -> 0 <= capacity -> rate + capacity = 25 ->
  Forall Lanes.word_slot paddedMessage ->
  Z.of_nat (List.length paddedMessage) mod rate = 0 ->
  Forall Lanes.is_word rc ->
  exists state,
    Keccak.absorb G paddedMessage capacity rate rc = Ok state /\ Lanes.lanes state.
Proof. intros HG. apply absorb_lanes. assumption. Qed.

Lemma absorb_returns_lanes_witness :
  exists state,
    Keccak.absorb GadgetsImpl.contract [Fld 1; Fld 2; Fld 3; Fld 4; Fld 5] 20 5
                  Keccak.ROUND_CONSTANTS
    = Ok state
    /\ Lanes.lanes state.
Proof.
  apply (absorb_returns_lanes GadgetsImpl.contract [Fld 1; Fld 2; Fld 3; Fld 4; Fld 5] 20 5
                              Keccak.ROUND_CONSTANTS).
  - apply contract_conforming.
  - lia.
  - lia.
  - reflexivity.
  - repeat constructor;
      (eexists; split; [reflexivity | unfold Lanes.is_word; split; [lia | reflexivity]]).
  - reflexivity.
  - apply round_constants_words.
Defined.

(** X21. The sponge on well-formed input: given gadgets that return words on
    words, a positive rate that adds up to 25 with the capacity and divides
    the length of a padded message of words, sponge returns [length] words
    when [0 <= length < rate], and throws in squeeze, after the whole
    message is absorbed, when [rate <= length]. *)
Theorem sponge_returns_or_limits
        (G : Gadgets) (paddedMessage : array) (length capacity rate : Z) :
  Lanes.conforming G ->
  0 < rate -> 0 <= capacity -> rate + capacity = 25 ->
  Forall Lanes.word_slot paddedMessage ->
  Z.of_nat (List.length paddedMessage) mod rate = 0 ->
  (0 <= length < rate ->
   exists out,
     Keccak.sponge G paddedMessage length capacity rate = Ok out
     /\ Z.of_nat (List.length out) = length
     /\ Forall Lanes.word_slot out)
  /\ (rate <= length ->
      Keccak.sponge G paddedMessage length capacity rate
      = Throw (Error "squeezes should be 1")).
Proof.
  intros HG Hr Hc Hrc Hp Hm. split; intros Hl.
  - apply sponge_lanes; assumption.
  - apply sponge_output_limit; assumption.
Qed.

Lemma sponge_returns_or_limits_witness :
  (exists out,
     Keccak.sponge GadgetsImpl.contract [] 4 8 17 = Ok out
     /\ Z.of_nat (List.length out) = 4
     /\ Forall Lanes.word_slot out)
  /\ Keccak.sponge GadgetsImpl.contract [] 17 8 17 = Throw (Error "squeezes should be 1").
Proof.
  split.
  - apply (sponge_returns_or_limits GadgetsImpl.contract [] 4 8 17).
    + apply contract_conforming.
    + lia.
    + lia.
    + reflexivity.
    + constructor.
    + reflexivity.
    + lia.
  - apply (sponge_returns_or_limits GadgetsImpl.contract [] 17 8 17).
    + apply contract_conforming.
    + lia.
    + lia.
    + reflexivity.
    + constructor.
    + reflexivity.
    + lia.
Defined.

(** ** The hash functions *)

(** X22. hash validates capacity and length in the order of its assertions,
    whatever the gadgets and the message: a capacity that is not positive,
    a capacity of 200 bytes or more, a length that is not positive, and a
    capacity or a length that is no multiple of 8, the last two with the
    same message about the length. *)
Theorem hash_validation
        (G : Gadgets) (message : array) (length capacity : Z) (nist : bool) :
  (capacity <= 0 ->
   Keccak.hash G message length capacity nist = Throw (Error "capacity must be positive"))
  /\ (200 <= capacity ->
      Keccak.hash G message length capacity nist
      = Throw (Error "capacity must be less than ${KECCAK_STATE_LENGTH_BYTES}"))
  /\ (0 < capacity < 200 -> length <= 0 ->
      Keccak.hash G message length capacity nist = Throw (Error "length must be positive"))
  /\ (0 < capacity < 200 -> 0 < length ->
      capacity mod 8 <> 0 \/ length mod 8 <> 0 ->
      Keccak.hash G message length capacity nist
      = Throw (Error "length must be a multiple of 8")).
Proof.
  unfold Keccak.hash.
  change Keccak.KECCAK_STATE_LENGTH_BYTES with 200.
  change Keccak.BYTES_PER_WORD with 8.
  split; [| split; [| split]].
  - intros H. destruct (Z.gtb_spec capacity 0) as [? | _]; [lia | reflexivity].
  - intros H. destruct (Z.gtb_spec capacity 0) as [_ | ?]; [| lia].
    destruct (Z.ltb_spec capacity 200) as [? | _]; [lia | reflexivity].
  - intros Hc Hl. destruct (Z.gtb_spec capacity 0) as [_ | ?]; [| lia].
    destruct (Z.ltb_spec capacity 200) as [_ | ?]; [| lia].
    destruct (Z.gtb_spec length 0) as [? | _]; [lia | reflexivity].
  - intros Hc Hl H8. destruct (Z.gtb_spec capacity 0) as [_ | ?]; [| lia].
    destruct (Z.ltb_spec capacity 200) as [_ | ?]; [| lia].
    destruct (Z.gtb_spec length 0) as [_ | ?]; [| lia].
    cbn [assert bind]. rewrite !Z.rem_mod_nonneg by lia.
    destruct (Z.eqb_spec (capacity mod 8) 0) as [E | _]; [| reflexivity].
    cbn [assert bind].
    destruct (Z.eqb_spec (length mod 8) 0) as [E' | _]; [| reflexivity].
    destruct H8; contradiction.
Qed.

Lemma hash_validation_witness :
  Keccak.hash GadgetsImpl.contract [] 32 0 true = Throw (Error "capacity must be positive")
  /\ Keccak.hash GadgetsImpl.contract [] 32 200 true
     = Throw (Error "capacity must be less than ${KECCAK_STATE_LENGTH_BYTES}")
  /\ Keccak.hash GadgetsImpl.contract [] 0 64 true = Throw (Error "length must be positive")
  /\ Keccak.hash GadgetsImpl.contract [] 32 60 true
     = Throw (Error "length must be a multiple of 8").
Proof.
  split; [| split; [| split]].
  - apply (hash_validation GadgetsImpl.contract [] 32 0 true). lia.
  - apply (hash_validation GadgetsImpl.contract [] 32 200 true). lia.
  - apply (hash_validation GadgetsImpl.contract [] 0 64 true); lia.
  - apply (hash_validation GadgetsImpl.contract [] 32 60 true); [lia | lia |].
    left. discriminate.
Defined.

(** X23. hash is total on valid parameters: given gadgets that return words
    on words, a capacity and a length that are positive multiples of 8
    bytes, the capacity below 200, with the length in words below the rate,
    and a message of bytes of any length, hash returns exactly [length]
    bytes, each below 256. *)
Theorem hash_returns_bytes
        (G : Gadgets) (message : array) (length capacity : Z) (nist : bool) :
  Lanes.conforming G ->
  0 < capacity < 200 -> capacity mod 8 = 0 -> 0 < length -> length mod 8 = 0 ->
  length / 8 < 25 - capacity / 8 ->
  Forall Lanes.byte_slot message ->
  exists out,
    Keccak.hash G message length capacity nist = Ok out
    /\ Z.of_nat (List.length out) = length
    /\ Forall Lanes.byte_slot out.
Proof. intros HG. apply hash_bytes. assumption. Qed.

Lemma hash_returns_bytes_witness :
  exists out,
    Keccak.hash GadgetsImpl.contract [Fld 97; Fld 98; Fld 99] 32 64 true = Ok out
    /\ Z.of_nat (List.length out) = 32
    /\ Forall Lanes.byte_slot out.
Proof.
  apply (hash_returns_bytes GadgetsImpl.contract [Fld 97; Fld 98; Fld 99] 32 64 true).
  - apply contract_conforming.
  - lia.
  - reflexivity.
  - lia.
  - reflexivity.
  - reflexivity.
  - apply (bytes_byte_slots [97; 98; 99]). unfold Keccak.is_byte. repeat constructor; lia.
Defined.



(** X25. The output length 224 that the signatures of nistSha3 and preNist
    allow is never served: 224/8 = 28 bytes is no multiple of 8, so hash
    throws on its last parameter check, whatever the gadgets and the
    message. *)
Theorem sha3_224_always_throws (G : Gadgets) (message : array) :
  Keccak.nistSha3 G Keccak.L224 message = Throw (Error "length must be a multiple of 8")
  /\ Keccak.preNist G Keccak.L224 message = Throw (Error "length must be a multiple of 8").
Proof. split; reflexivity. Qed.

(** X26. The other output lengths are served: given gadgets that return
    words on words, for 256, 384 and 512 bits and a message of bytes of any
    length, nistSha3 and preNist return len/8 bytes; so ethereum returns 32
    bytes. *)
Theorem sha3_returns_digest
        (G : Gadgets) (len : Keccak.digest_length) (message : array) :
  Lanes.conforming G -> len <> Keccak.L224 ->
  Forall Lanes.byte_slot message ->
  (exists out,
     Keccak.nistSha3 G len message = Ok out
     /\ 8 * Z.of_nat (List.length out) = Keccak.bits_of len
     /\ Forall Lanes.byte_slot out)
  /\ (exists out,
        Keccak.preNist G len message = Ok out
        /\ 8 * Z.of_nat (List.length out) = Keccak.bits_of len
        /\ Forall Lanes.byte_slot out)
  /\ (exists out,
        Keccak.ethereum G message = Ok out
        /\ List.length out = 32%nat
        /\ Forall Lanes.byte_slot out).
Proof.
  intros HG Hlen Hm. unfold Keccak.nistSha3, Keccak.preNist, Keccak.ethereum.
  assert (P : 0 < Keccak.bits_of len / 4 < 200
              /\ (Keccak.bits_of len / 4) mod 8 = 0
              /\ 0 < Keccak.bits_of len / 8
              /\ (Keccak.bits_of len / 8) mod 8 = 0
              /\ Keccak.bits_of len / 8 / 8 < 25 - Keccak.bits_of len / 4 / 8
              /\ 8 * (Keccak.bits_of len / 8) = Keccak.bits_of len).
  { destruct len; [congruence | | |]; repeat split; reflexivity. }
  destruct P as (P1 & P2 & P3 & P4 & P5 & P6).
  split; [| split].
  - destruct (hash_bytes G HG message _ _ true P1 P2 P3 P4 P5 Hm) as (out & E & L & F).
    exists out. repeat split; try assumption. rewrite L. assumption.
  - destruct (hash_bytes G HG message _ _ false P1 P2 P3 P4 P5 Hm) as (out & E & L & F).
    exists out. repeat split; try assumption. rewrite L. assumption.
  - destruct (hash_bytes G HG message 32 64 false) as (out & E & L & F);
      [lia | reflexivity | lia | reflexivity | reflexivity | assumption |].
    exists out. repeat split; try assumption. lia.
Qed.

Lemma sha3_returns_digest_witness :
  (exists out,
     Keccak.nistSha3 GadgetsImpl.contract Keccak.L384 [Fld 1] = Ok out
     /\ 8 * Z.of_nat (List.length out) = Keccak.bits_of Keccak.L384
     /\ Forall Lanes.byte_slot out)
  /\ (exists out,
        Keccak.preNist GadgetsImpl.contract Keccak.L384 [Fld 1] = Ok out
        /\ 8 * Z.of_nat (List.length out) = Keccak.bits_of Keccak.L384
        /\ Forall Lanes.byte_slot out)
  /\ (exists out,
        Keccak.ethereum GadgetsImpl.contract [Fld 1] = Ok out
        /\ List.length out = 32%nat
        /\ Forall Lanes.byte_slot out).
Proof.
  apply (sha3_returns_digest GadgetsImpl.contract Keccak.L384 [Fld 1]).
  - apply contract_conforming.
  - discriminate.
  - apply (bytes_byte_slots [1]). unfold Keccak.is_byte. repeat constructor; lia.
Defined.

Lemma bind_Ok_inv {A B : Type} (m : result A) (k : A -> result B) (b : B) :
  bind m k = Ok b -> exists a, m = Ok a /\ k a = Ok b.
Proof. destruct m as [a | |]; cbn [bind]; [| discriminate ..]. intros H. exists a. split; [reflexivity | assumption]. Qed.

Lemma forM_cons_inv {S : Type} (i : Z) (idx : list Z) (body : Z -> S -> result S) (s s' : S) :
  forM (i :: idx) body s = Ok s' ->
  exists s1, body i s = Ok s1 /\ forM idx body s1 = Ok s'.
Proof. cbn [forM]. apply bind_Ok_inv. Qed.

Lemma piRho_step (G : Gadgets) (state st st' : list array) (i j : Z) :
  (e <- cell_get state i j ;;
   e <- as_field e ;;
   r <- g_rotate G e (js_get 0 (js_get [] Keccak.ROT_TABLE i) j) Left ;;
   cell_set st j ((2 * i + 3 * j) mod Keccak.KECCAK_DIM) (Fld r))%result = Ok st' ->
  exists e r,
    cell_get state i j = Ok (Fld e)
    /\ g_rotate G e (js_get 0 (js_get [] Keccak.ROT_TABLE i) j) Left = Ok r
    /\ cell_set st j ((2 * i + 3 * j) mod Keccak.KECCAK_DIM) (Fld r) = Ok st'.
Proof.
  intros H. apply bind_Ok_inv in H. destruct H as (v & Hv & H).
  apply bind_Ok_inv in H. destruct H as (e & He & H).
  apply bind_Ok_inv in H. destruct H as (r & Hr & H).
  destruct v as [| x]; [discriminate |]. injection He as ->.
  exists e, r. repeat split; assumption.
Qed.

(** X27. piRho moves every lane and loses none: whatever the gadgets, when
    piRho returns on a 5x5 state, the lane read at [i][j] was rotated by
    the entry [i][j] of the rotation table and is found at [j][(2i+3j) mod 5]
    of the result; no later write of the double loop has overwritten it. *)
Theorem piRho_places_every_lane
        (G : Gadgets) (state state' : list array) (i j : Z) :
  Keccak.is_5x5 state = true ->
  Keccak.piRho G state = Ok state' ->
  0 <= i < 5 -> 0 <= j < 5 ->
  exists e r,
    cell_get state i j = Ok (Fld e)
    /\ g_rotate G e (js_get 0 (js_get [] Keccak.ROT_TABLE i) j) Left = Ok r
    /\ cell_get state' j ((2 * i + 3 * j) mod 5) = Ok (Fld r).
Proof.
  intros H5 H Hi Hj. apply is_5x5_inv in H5.
  destruct H5 as (a0 & a1 & a2 & a3 & a4 & b0 & b1 & b2 & b3 & b4 & c0 & c1 & c2 & c3 & c4
                  & d0 & d1 & d2 & d3 & d4 & e0 & e1 & e2 & e3 & e4 & ->).
  unfold Keccak.piRho in H. cbv zeta in H.
  change Keccak.dim with [0; 1; 2; 3; 4] in H.
  change Keccak.State.zeros
    with [ [Fld 0; Fld 0; Fld 0; Fld 0; Fld 0]; [Fld 0; Fld 0; Fld 0; Fld 0; Fld 0];
           [Fld 0; Fld 0; Fld 0; Fld 0; Fld 0]; [Fld 0; Fld 0; Fld 0; Fld 0; Fld 0];
           [Fld 0; Fld 0; Fld 0; Fld 0; Fld 0] ] in H.
  repeat match goal with
         | K : forM (_ :: _) _ _ = Ok _ |- _ =>
           apply forM_cons_inv in K;
           let s := fresh "s" in
           let K1 := fresh "K" in
           destruct K as (s & K1 & K); cbv beta in K1
         | K : forM [] _ _ = Ok _ |- _ =>
           cbn [forM] in K; injection K as K; subst
         | K : bind (cell_get _ _ _) _ = Ok _ |- _ =>
           apply piRho_step in K;
           let e := fresh "e" in
           let r := fresh "r" in
           let Kc := fresh "Kc" in
           let Kr := fresh "Kr" in
           destruct K as (e & r & Kc & Kr & K);
           cbv in Kc; injection Kc as Kc; subst;
           cbv in K; injection K as K; subst
         end.
  assert (Ci : i = 0 \/ i = 1 \/ i = 2 \/ i = 3 \/ i = 4) by lia.
  assert (Cj : j = 0 \/ j = 1 \/ j = 2 \/ j = 3 \/ j = 4) by lia.
  clear Hi Hj.
  destruct Ci as [-> | [-> | [-> | [-> | ->]]]];
    destruct Cj as [-> | [-> | [-> | [-> | ->]]]];
    (do 2 eexists; split; [reflexivity | split; [eassumption | reflexivity]]).
Qed.

Lemma piRho_places_every_lane_witness :
  exists e r,
    cell_get [ [Fld 1; Fld 2; Fld 3; Fld 4; Fld 5]; [Fld 6; Fld 7; Fld 8; Fld 9; Fld 10];
               [Fld 11; Fld 12; Fld 13; Fld 14; Fld 15];
               [Fld 16; Fld 17; Fld 18; Fld 19; Fld 20];
               [Fld 21; Fld 22; Fld 23; Fld 24; Fld 25] ] 1 2 = Ok (Fld e)
    /\ g_rotate GadgetsImpl.contract e (js_get 0 (js_get [] Keccak.ROT_TABLE 1) 2) Left = Ok r
    /\ cell_get
         match Keccak.piRho GadgetsImpl.contract
                 [ [Fld 1; Fld 2; Fld 3; Fld 4; Fld 5]; [Fld 6; Fld 7; Fld 8; Fld 9; Fld 10];
                   [Fld 11; Fld 12; Fld 13; Fld 14; Fld 15];
                   [Fld 16; Fld 17; Fld 18; Fld 19; Fld 20];
                   [Fld 21; Fld 22; Fld 23; Fld 24; Fld 25] ]
         with Ok s => s | _ => [] end
         2 ((2 * 1 + 3 * 2) mod 5) = Ok (Fld r).
Proof.
  apply (piRho_places_every_lane GadgetsImpl.contract
           [ [Fld 1; Fld 2; Fld 3; Fld 4; Fld 5]; [Fld 6; Fld 7; Fld 8; Fld 9; Fld 10];
             [Fld 11; Fld 12; Fld 13; Fld 14; Fld 15];
             [Fld 16; Fld 17; Fld 18; Fld 19; Fld 20];
             [Fld 21; Fld 22; Fld 23; Fld 24; Fld 25] ]).
  - reflexivity.
  - vm_compute. reflexivity.
  - lia.
  - lia.
Defined.

(** ** The state conversions on malformed input *)

Lemma cell_set_5x5 (state : list array) (i j : Z) (v : value) :
  Keccak.is_5x5 state = true -> 0 <= i < 5 -> 0 <= j < 5 ->
  exists state', cell_set state i j v = Ok state' /\ Keccak.is_5x5 state' = true.
Proof.
  intros H5 Hi Hj. apply is_5x5_inv in H5.
  repeat match goal with H : exists _, _ |- _ => destruct H end. subst.
  assert (Ci : i = 0 \/ i = 1 \/ i = 2 \/ i = 3 \/ i = 4) by lia.
  assert (Cj : j = 0 \/ j = 1 \/ j = 2 \/ j = 3 \/ j = 4) by lia.
  destruct Ci as [-> | [-> | [-> | [-> | ->]]]];
    destruct Cj as [-> | [-> | [-> | [-> | ->]]]];
    (eexists; split; reflexivity).
Qed.

(** X28. fromWords never throws: on an array of any length, in particular
    one shorter than 25 whose missing words read as undefined, it returns a
    5x5 matrix. *)
Theorem fromWords_total (words : array) :
  exists state,
    Keccak.State.fromWords words = Ok state /\ Keccak.is_5x5 state = true.
Proof.
  unfold Keccak.State.fromWords.
  apply (forM_returns (fun st => Keccak.is_5x5 st = true) (fun j => 0 <= j < 5));
    [apply dim_range | reflexivity |].
  intros j st Hj Hst.
  apply (forM_returns (fun st => Keccak.is_5x5 st = true) (fun i => 0 <= i < 5));
    [apply dim_range | assumption |].
  intros i st' Hi Hst'. apply cell_set_5x5; assumption.
Qed.

(** X29. toWords needs five rows: on a state with fewer rows the read of the
    first missing row throws a TypeError, whatever the rows hold. *)
Theorem toWords_short_state_throws (state : list array) :
  (List.length state < 5)%nat ->
  Keccak.State.toWords state
  = Throw (TypeError "Cannot read properties of undefined").
Proof.
  intros H.
  do 5 (destruct state as [| ? state]; [reflexivity |]).
  cbn [List.length] in H. lia.
Qed.

Lemma toWords_short_state_throws_witness :
  Keccak.State.toWords [[Fld 1; Fld 2; Fld 3; Fld 4; Fld 5]; [Fld 6]]
  = Throw (TypeError "Cannot read properties of undefined").
Proof.
  apply (toWords_short_state_throws [[Fld 1; Fld 2; Fld 3; Fld 4; Fld 5]; [Fld 6]]).
  cbn [List.length]. lia.
Defined.

(** ** The sponge over the XOR gadget as written *)

Lemma absorb_source_out_of_fuel
      (fuel : nat) (padded : array) (capacity rate : Z) (rc : list Z) :
  0 < rate -> 0 <= capacity -> rate + capacity = 25 ->
  Forall Lanes.word_slot padded ->
  Z.of_nat (List.length padded) mod rate = 0 ->
  0 < Z.of_nat (List.length padded) ->
  Keccak.absorb (GadgetsImpl.source fuel) padded capacity rate rc = OutOfFuel.
Proof.
  intros Hr Hc Hrc Hp Hm Hl. unfold Keccak.absorb, js_rem.
  change Keccak.KECCAK_STATE_LENGTH_WORDS with 25.
  destruct (Z.eqb_spec (rate + capacity) 25) as [_ | ?]; [| lia].
  destruct (Z.eqb_spec rate 0) as [? | _]; [lia |].
  rewrite Z.rem_mod_nonneg, Hm by lia. cbn [assert bind].
  unfold js_fill. destruct (Z.ltb_spec capacity 0) as [? | _]; [lia |]. cbn [bind].
  cbn [Keccak.absorb_loop].
  destruct (Z.ltb_spec 0 (Z.of_nat (List.length padded))) as [_ | ?]; [| lia].
  assert (Hdiv : rate <= Z.of_nat (List.length padded)).
  { apply Z.mod_divide in Hm; [| lia]. destruct Hm as [q Hq].
    assert (0 < q) by nia. nia. }
  destruct (fromWords_lanes
              (js_slice padded 0 (0 + rate) ++ repeat (Fld (Field.from 0)) (Z.to_nat capacity)))
    as (blockState & -> & Hbs).
  { apply Nat2Z.inj.
    rewrite length_app, Nat2Z.inj_add, length_js_slice, repeat_length by lia. lia. }
  { apply Forall_app. split; [apply Forall_js_slice; assumption |].
    apply Forall_forall. intros v Hv. apply repeat_spec in Hv. subst v.
    exists 0. split; [reflexivity |]. split; [lia | reflexivity]. }
  cbn [bind].
  pose proof (lanes_is_5x5 blockState Hbs) as H5. apply is_5x5_inv in H5.
  destruct H5 as (a0 & a1 & a2 & a3 & a4 & b0 & b1 & b2 & b3 & b4 & c0 & c1 & c2 & c3 & c4
                  & d0 & d1 & d2 & d3 & d4 & e0 & e1 & e2 & e3 & e4 & ->).
  destruct Hbs as [_ R]. inversion R as [| ? ? [_ R0] _]; subst.
  inversion R0 as [| ? ? (y & -> & Hy) _]; subst.
  change Keccak.State.zeros
    with ((Fld 0 :: repeat (Fld 0) 4) :: repeat (repeat (Fld 0) 5) 4).
  rewrite State_xor_source_out_of_fuel;
    first [reflexivity | exact Hy | split; [lia | reflexivity]].
Qed.

(** X30. Over the XOR gadget as written no digest is ever produced: with
    valid parameters and a message of bytes of any length, hash pads,
    converts and starts to absorb, and the XOR of the zero state with the
    first block exhausts every budget, the lanes being 64 bits wide and 64
    a multiple of 16. *)
Theorem hash_source_never_returns
        (fuel : nat) (message : array) (length capacity : Z) (nist : bool) :
  0 < capacity < 200 -> capacity mod 8 = 0 -> 0 < length -> length mod 8 = 0 ->
  Forall Lanes.byte_slot message ->
  Keccak.hash (GadgetsImpl.source fuel) message length capacity nist = OutOfFuel.
Proof.
  intros Hc Hc8 Hl Hl8 Hm.
  destruct (hash_prelude (GadgetsImpl.source fuel) message length capacity nist
                         Hc Hc8 Hl Hl8 Hm)
    as (padded & Fp & Hne & Lp & ->).
  assert (Hq : 1 <= capacity / 8 <= 24) by (Z.div_mod_to_equations; lia).
  unfold Keccak.sponge, js_rem.
  destruct (Z.eqb_spec (25 - capacity / 8) 0) as [? | _]; [lia |].
  rewrite Z.rem_mod_nonneg, Lp by lia. cbn [assert bind].
  rewrite absorb_source_out_of_fuel; try assumption; try lia. reflexivity.
Qed.

Lemma hash_source_never_returns_witness :
  Keccak.hash (GadgetsImpl.source 1000) [Fld 97; Fld 98; Fld 99] 32 64 true = OutOfFuel.
Proof.
  apply (hash_source_never_returns 1000 [Fld 97; Fld 98; Fld 99] 32 64 true).
  - lia.
  - reflexivity.
  - lia.
  - reflexivity.
  - apply (bytes_byte_slots [97; 98; 99]). unfold Keccak.is_byte. repeat constructor; lia.
Defined.
